(** * Sprite-table converters of mega-human: a shallow embedding

    The two scripts [analysis/build_zero_sprites.py] and
    [analysis/build_sigma_sprites.py] read one JSON document per animation
    clip and turn it into the frame table of the game.  This file embeds

    - the Python numerics the scripts rely on ([int], [round], [*], [max])
      over JSON numbers, which Python parses as [int] or as binary64 [float];
    - the JSON documents as records whose optional keys are [option] fields;
    - [convert_anim] of both scripts, with the [frame_data] dictionary
      threaded through the loop body as a record;
    - the accessor functions [getZeroAnim] and [getSigmaAnim] that the
      scripts emit into the generated module, whose tables are object
      literals read through [Object.prototype];
    - [format_frame] and the loop of [main] that writes one table entry
      per animation whose JSON file exists;
    - the input detection of [tools/map-controller.py] over what pygame
      reports: event batches and joystick states.

    A Python exception is the [None] of the [option] monad. *)

From Stdlib Require Import ZArith Floats Ascii DecimalString DecimalZ DecimalPos.
From stdpp Require Import gmap strings list option.

Local Open Scope Z_scope.
Set Warnings "-inexact-float".

(** ** Python numbers *)

Module Py.

(** A JSON number after [json.load]: an arbitrary-precision [int] or a
    binary64 [float]. *)
Inductive num : Type :=
  | PyInt (z : Z)
  | PyFloat (f : float).

(** The magnitude [m * 2^e] of a finite float, cut towards zero. *)
Definition mag_trunc (m : positive) (e : Z) : Z :=
  if 0 <=? e then Z.pos m * 2 ^ e else Z.pos m / 2 ^ (- e).

(** The magnitude [m * 2^e] rounded to the nearest integer, ties to even. *)
Definition mag_round (m : positive) (e : Z) : Z :=
  if 0 <=? e then Z.pos m * 2 ^ e
  else
    let d := 2 ^ (- e) in
    let q := Z.pos m / d in
    let r := Z.pos m mod d in
    match 2 * r ?= d with
    | Lt => q
    | Gt => q + 1
    | Eq => if Z.even q then q else q + 1
    end.

Definition signed (s : bool) (a : Z) : Z := if s then - a else a.

(** [int(f)] on a float: truncation towards zero; [OverflowError] on an
    infinity and [ValueError] on a NaN. *)
Definition float_int (f : float) : option Z :=
  match Prim2SF f with
  | S754_zero _ => Some 0
  | S754_finite s m e => Some (signed s (mag_trunc m e))
  | S754_infinity _ | S754_nan => None
  end.

(** [round(f)] on a float with one argument: the nearest integer, ties to
    even, as an [int]; the same exceptions as [int(f)]. *)
Definition float_round (f : float) : option Z :=
  match Prim2SF f with
  | S754_zero _ => Some 0
  | S754_finite s m e => Some (signed s (mag_round m e))
  | S754_infinity _ | S754_nan => None
  end.

(** [math.floor(f)], which the scripts do not call: the largest integer
    not above [f]. *)
Definition float_floor (f : float) : option Z :=
  match Prim2SF f with
  | S754_zero _ => Some 0
  | S754_finite s m e =>
      Some (if 0 <=? e then signed s (Z.pos m * 2 ^ e)
            else signed s (Z.pos m) / 2 ^ (- e))
  | S754_infinity _ | S754_nan => None
  end.

(** [int(x)] *)
Definition int (x : num) : option Z :=
  match x with
  | PyInt z => Some z
  | PyFloat f => float_int f
  end.

(** [round(x)] *)
Definition round (x : num) : option Z :=
  match x with
  | PyInt z => Some z
  | PyFloat f => float_round f
  end.

(** [math.floor(x)] *)
Definition floor (x : num) : option Z :=
  match x with
  | PyInt z => Some z
  | PyFloat f => float_floor f
  end.

(** [int(round(x))] *)
Definition int_round (x : num) : option Z :=
  r ← round x; int (PyInt r).

(** [x * 60]: exact on an [int]; on a [float] the literal is converted to
    [60.0] and the product is rounded to binary64. *)
Definition mul60 (x : num) : num :=
  match x with
  | PyInt z => PyInt (z * 60)
  | PyFloat f => PyFloat (f * 60)%float
  end.

(** [x == 0] *)
Definition eq0 (x : num) : bool :=
  match x with
  | PyInt z => z =? 0
  | PyFloat f => (f =? 0)%float
  end.

End Py.

(** ** The JSON documents *)

(** The records are the documents of the schema the sprite editor writes.
    A key the scripts subscript is a field: the [frames] of an animation,
    the [rect] of a frame, its two corners and their [x] and [y].  A key
    the scripts read with [.get] is an [option] field.  Every value has
    the type of the schema: a number where the scripts compute with it,
    an object where they call [.get], a list where they iterate, a string
    for [wrapMode] and [tags], an integer for [loopStartFrame].  Numbers
    include the infinities and NaN, which [json.load] accepts.

    A document outside the schema is not a value of these types: one
    without [frames] or [rect], where the subscript raises [KeyError], or
    one with [null] or a string where a number is read, where the
    arithmetic raises [TypeError].  What is proved below about when a
    conversion raises is proved for the documents of the schema. *)

(** [{"x": .., "y": ..}] of a rectangle corner; both keys are read with
    subscripts. *)
Record Point : Type := mkPoint {
  pt_x : Py.num;
  pt_y : Py.num;
}.

Record Rect : Type := mkRect {
  topLeftPoint : Point;
  botRightPoint : Point;
}.

(** An offset object, and every other object read with [.get(key, 0)]. *)
Record Offset : Type := mkOffset {
  off_x : option Py.num;
  off_y : option Py.num;
}.

Record POI : Type := mkPOI {
  tags : option string;
  poi_x : option Py.num;
  poi_y : option Py.num;
}.

Record Hitbox : Type := mkHitbox {
  flag : option Py.num;
  width : option Py.num;
  height : option Py.num;
  hb_offset : option Offset;
}.

Record FrameSource : Type := mkFrameSource {
  rect : Rect;
  duration : option Py.num;
  offset : option Offset;
  POIs : option (list POI);
  hitboxes : option (list Hitbox);
}.

Record AnimationSource : Type := mkAnimationSource {
  wrapMode : option string;
  loopStartFrame : option Z;
  frames : list FrameSource;
}.

(** ** The compiled table *)

Record AtkBox : Type := mkAtkBox {
  ab_w : Z;
  ab_h : Z;
  ab_ox : Z;
  ab_oy : Z;
}.

(** [frame_data]: the keys [sx], [sy], [sw], [sh], [dur] are always set,
    the others only by the assignments that mention them. *)
Record CompiledFrame : Type := mkFrame {
  sx : Z;
  sy : Z;
  sw : Z;
  sh : Z;
  dur : Z;
  ox : option Z;
  oy : option Z;
  hx : option Z;
  hy : option Z;
  atkBox : option AtkBox;
}.

Definition set_ox (v : Z) (fd : CompiledFrame) : CompiledFrame :=
  mkFrame (sx fd) (sy fd) (sw fd) (sh fd) (dur fd)
          (Some v) (oy fd) (hx fd) (hy fd) (atkBox fd).

Definition set_oy (v : Z) (fd : CompiledFrame) : CompiledFrame :=
  mkFrame (sx fd) (sy fd) (sw fd) (sh fd) (dur fd)
          (ox fd) (Some v) (hx fd) (hy fd) (atkBox fd).

Definition set_hx (v : Z) (fd : CompiledFrame) : CompiledFrame :=
  mkFrame (sx fd) (sy fd) (sw fd) (sh fd) (dur fd)
          (ox fd) (oy fd) (Some v) (hy fd) (atkBox fd).

Definition set_hy (v : Z) (fd : CompiledFrame) : CompiledFrame :=
  mkFrame (sx fd) (sy fd) (sw fd) (sh fd) (dur fd)
          (ox fd) (oy fd) (hx fd) (Some v) (atkBox fd).

Definition set_atkBox (b : AtkBox) (fd : CompiledFrame) : CompiledFrame :=
  mkFrame (sx fd) (sy fd) (sw fd) (sh fd) (dur fd)
          (ox fd) (oy fd) (hx fd) (hy fd) (Some b).

(** The dictionary [convert_anim] returns.  Its ['loopStart'] entry holds
    [None] when no loop start is recorded. *)
Record CompiledAnimation : Type := mkAnimation {
  loop : bool;
  loopStart : option Z;
  cframes : list CompiledFrame;
}.

(** ** Pieces of the loop body that the two scripts share verbatim *)

Definition empty_offset : Offset := mkOffset None None.

(** [sx], [sy], [sw], [sh] from [fr['rect']]. *)
Definition frame_rect (fr : FrameSource) : option (Z * Z * Z * Z) :=
  let tl := topLeftPoint (rect fr) in
  let br := botRightPoint (rect fr) in
  sx ← Py.int (pt_x tl);
  sy ← Py.int (pt_y tl);
  brx ← Py.int (pt_x br);
  let sw := brx - sx in
  bry ← Py.int (pt_y br);
  let sh := bry - sy in
  Some (sx, sy, sw, sh).

(** [dur = max(1, round(dur_sec * 60))] *)
Definition frame_duration (fr : FrameSource) : option Z :=
  let dur_sec := default (Py.PyFloat 0.066) (duration fr) in
  r ← Py.round (Py.mul60 dur_sec);
  Some (Z.max 1 r).

(** [ox], [oy] from [fr.get('offset', {})]. *)
Definition frame_offset (fr : FrameSource) : option (Z * Z) :=
  let offset := default empty_offset (offset fr) in
  ox ← Py.int_round (default (Py.PyInt 0) (off_x offset));
  oy ← Py.int_round (default (Py.PyInt 0) (off_y offset));
  Some (ox, oy).

(** The first [frame_data], with [ox] and [oy] only when they are not 0. *)
Definition init_frame_data (sx sy sw sh dur ox oy : Z) : CompiledFrame :=
  let frame_data := mkFrame sx sy sw sh dur None None None None None in
  let frame_data := if ox =? 0 then frame_data else set_ox ox frame_data in
  let frame_data := if oy =? 0 then frame_data else set_oy oy frame_data in
  frame_data.

(** [h.get('flag', 0) == 0] *)
Definition is_active (h : Hitbox) : bool :=
  Py.eq0 (default (Py.PyInt 0) (flag h)).

(** The dictionary assigned to [frame_data['atkBox']] for the hitbox [hb]. *)
Definition hitbox_atkBox (hb : Hitbox) : option AtkBox :=
  let hb_offset := default empty_offset (hb_offset hb) in
  w ← Py.int_round (default (Py.PyInt 0) (width hb));
  h ← Py.int_round (default (Py.PyInt 0) (height hb));
  ox ← Py.int_round (default (Py.PyInt 0) (off_x hb_offset));
  oy ← Py.int_round (default (Py.PyInt 0) (off_y hb_offset));
  Some (mkAtkBox w h ox oy).

(** The hitbox block: [active_hitboxes] is the list comprehension, and the
    first of them, when there is one, becomes the attack box. *)
Definition json_hitboxes (fr : FrameSource) (frame_data : CompiledFrame)
  : option CompiledFrame :=
  let hitboxes := default [] (hitboxes fr) in
  let active_hitboxes := List.filter is_active hitboxes in
  match active_hitboxes with
  | hb :: _ => b ← hitbox_atkBox hb; Some (set_atkBox b frame_data)
  | [] => Some frame_data
  end.

Definition poi_tag (poi : POI) : string := default "" (tags poi).

(** ** Property reads of the generated JavaScript *)

Module JS.

(** The property names every object literal inherits from
    [Object.prototype]. *)
Definition prototype_members : list string :=
  ["constructor"; "__proto__"; "hasOwnProperty"; "isPrototypeOf";
   "propertyIsEnumerable"; "toLocaleString"; "toString"; "valueOf";
   "__defineGetter__"; "__defineSetter__"; "__lookupGetter__";
   "__lookupSetter__"].

(** What [obj[key]] evaluates to when it is not [undefined]: the value of
    an own property, or the member of [Object.prototype] of that name (a
    function; the prototype object itself for [__proto__]). *)
Inductive value (A : Type) : Type :=
  | Own (a : A)
  | Inherited (member : string).
Arguments Own {A} a.
Arguments Inherited {A} member.

(** [obj[key]] on an object literal whose own properties are [obj]: the own
    property first, then the prototype chain; [None] is [undefined]. *)
Definition get {A} (obj : gmap string A) (key : string) : option (value A) :=
  match obj !! key with
  | Some a => Some (Own a)
  | None =>
      if bool_decide (key ∈ prototype_members) then Some (Inherited key)
      else None
  end.

(** Truthiness: an inherited member is a function or an object, hence
    truthy; an own value is judged by [own]. *)
Definition truthy {A} (own : A → bool) (v : value A) : bool :=
  match v with
  | Own a => own a
  | Inherited _ => true
  end.

(** The property key a value converts to when it is used as an index: a
    string is its own key; an inherited member converts to the text
    [member_key] gives it, which the engine chooses. *)
Definition to_key (member_key : string → string) (v : value string) : string :=
  match v with
  | Own s => s
  | Inherited member => member_key member
  end.

End JS.

(** ** build_zero_sprites.py *)

Module Zero.

(** The loop over [pois]: every POI tagged ["b"] assigns [hx] and [hy]. *)
Fixpoint scan_pois (pois : list POI) (frame_data : CompiledFrame)
  : option CompiledFrame :=
  match pois with
  | [] => Some frame_data
  | poi :: rest =>
      let tag := poi_tag poi in
      if String.eqb tag "b" then
        hx ← Py.int_round (default (Py.PyInt 0) (poi_x poi));
        hy ← Py.int_round (default (Py.PyInt 0) (poi_y poi));
        scan_pois rest (set_hy hy (set_hx hx frame_data))
      else scan_pois rest frame_data
  end.

(** The body of [for i, fr in enumerate(data['frames'])]; neither [name]
    nor [i] is read in this script. *)
Definition convert_frame (fr : FrameSource) : option CompiledFrame :=
  '(sx, sy, sw, sh) ← frame_rect fr;
  dur ← frame_duration fr;
  '(ox, oy) ← frame_offset fr;
  let frame_data := init_frame_data sx sy sw sh dur ox oy in
  let pois := default [] (POIs fr) in
  frame_data ← scan_pois pois frame_data;
  frame_data ← json_hitboxes fr frame_data;
  Some frame_data.

(** [frames.append(frame_data)] over the source frames, in order. *)
Fixpoint convert_frames (frs : list FrameSource) : option (list CompiledFrame) :=
  match frs with
  | [] => Some []
  | fr :: rest =>
      frame_data ← convert_frame fr;
      frames ← convert_frames rest;
      Some (frame_data :: frames)
  end.

Definition convert_anim (name : string) (data : AnimationSource)
  : option CompiledAnimation :=
  let wrap := default "once" (wrapMode data) in
  let loop_start := default 0 (loopStartFrame data) in
  let is_loop := String.eqb wrap "loop" in
  frames ← convert_frames (frames data);
  Some (mkAnimation is_loop
          (if is_loop && (0 <? loop_start) then Some loop_start else None)
          frames).

(** [ZERO_SHOOT_ANIM_MAP] of the generated module. *)
Definition ZERO_SHOOT_ANIM_MAP : gmap string string :=
  list_to_map
    [("idle", "shoot"); ("run", "run_shoot"); ("jump", "jump_shoot");
     ("fall", "fall_shoot"); ("dash", "dash_shoot");
     ("wall_slide", "wall_slide_shoot")].

(** JavaScript truthiness of a string: every string but the empty one. *)
Definition js_truthy (s : string) : bool := negb (String.eqb s "").

(** [getZeroAnim(state, shooting = false)] of the generated module, over the
    table [ZERO_ANIMATIONS]; [None] is JavaScript's [undefined].  Both
    tables are object literals, so every index reads through
    [Object.prototype] ([JS.get]).  Every entry of [ZERO_ANIMATIONS] is an
    object and every inherited member is a function or an object, hence
    truthy, so [a || b] is [a] unless [a] is [undefined].  [member_key]
    is the engine's conversion of an inherited member to a property key,
    needed where [shootState] is such a member. *)
Definition getZeroAnim (member_key : string → string)
    (ZERO_ANIMATIONS : gmap string CompiledAnimation)
    (state : string) (shooting : bool) : option (JS.value CompiledAnimation) :=
  let last_line :=
    match JS.get ZERO_ANIMATIONS state with
    | Some a => Some a
    | None => JS.get ZERO_ANIMATIONS "idle"
    end in
  if shooting then
    match JS.get ZERO_SHOOT_ANIM_MAP state with
    | Some shootState =>
        if JS.truthy js_truthy shootState then
          match JS.get ZERO_ANIMATIONS (JS.to_key member_key shootState) with
          | Some a => Some a
          | None => last_line
          end
        else last_line
    | None => last_line
    end
  else last_line.

End Zero.

(** ** build_sigma_sprites.py *)

Module Sigma.

(** [MANUAL_ATK_BOXES] *)
Definition MANUAL_ATK_BOXES : gmap string (gmap nat AtkBox) :=
  list_to_map
    [("attack",
      list_to_map [(2%nat, mkAtkBox 23 40 30 (-32));
                   (3%nat, mkAtkBox 23 40 30 (-32))]);
     ("attack_air",
      list_to_map [(2%nat, mkAtkBox 23 40 23 (-42));
                   (3%nat, mkAtkBox 23 40 23 (-42))]);
     ("attack_dash",
      list_to_map [(0%nat, mkAtkBox 23 40 21 (-33));
                   (1%nat, mkAtkBox 23 40 21 (-33))]);
     ("wall_slide_attack",
      list_to_map [(3%nat, mkAtkBox 48 53 53 3);
                   (4%nat, mkAtkBox 48 53 53 3);
                   (5%nat, mkAtkBox 48 53 53 3);
                   (6%nat, mkAtkBox 48 53 53 3)])].

(** [MANUAL_DURATIONS] *)
Definition MANUAL_DURATIONS : gmap string (gmap nat Z) :=
  list_to_map
    [("attack",
      list_to_map [(0%nat, 2); (1%nat, 2); (2%nat, 3); (3%nat, 10)]);
     ("attack_air",
      list_to_map [(2%nat, 3); (3%nat, 10)]);
     ("attack_dash",
      list_to_map [(0%nat, 3); (1%nat, 10)])].

(** [table[name][i]] guarded by [name in table and i in table[name]]. *)
Definition override {A} (table : gmap string (gmap nat A))
    (name : string) (i : nat) : option A :=
  match table !! name with
  | Some per_frame => per_frame !! i
  | None => None
  end.

Section Engine.

(** The two global tables, as the loop body reads them. *)
Variable durations : gmap string (gmap nat Z).
Variable atk_boxes : gmap string (gmap nat AtkBox).

(** The loop over [pois]: every POI with the empty tag assigns [hx] and
    [hy]; the branch for the tag ["h"] is [pass]. *)
Fixpoint scan_pois (pois : list POI) (frame_data : CompiledFrame)
  : option CompiledFrame :=
  match pois with
  | [] => Some frame_data
  | poi :: rest =>
      let tag := poi_tag poi in
      if String.eqb tag "" then
        px ← Py.int_round (default (Py.PyInt 0) (poi_x poi));
        py ← Py.int_round (default (Py.PyInt 0) (poi_y poi));
        scan_pois rest (set_hy py (set_hx px frame_data))
      else if String.eqb tag "h" && negb (bool_decide (is_Some (hx frame_data)))
      then scan_pois rest frame_data
      else scan_pois rest frame_data
  end.

(** The body of [for i, fr in enumerate(data['frames'])]. *)
Definition convert_frame_with (name : string) (i : nat) (fr : FrameSource)
  : option CompiledFrame :=
  '(sx, sy, sw, sh) ← frame_rect fr;
  dur ← frame_duration fr;
  let dur :=
    match override durations name i with
    | Some d => d
    | None => dur
    end in
  '(ox, oy) ← frame_offset fr;
  let frame_data := init_frame_data sx sy sw sh dur ox oy in
  let pois := default [] (POIs fr) in
  frame_data ← scan_pois pois frame_data;
  frame_data ← json_hitboxes fr frame_data;
  let frame_data :=
    match override atk_boxes name i with
    | Some b => set_atkBox b frame_data
    | None => frame_data
    end in
  Some frame_data.

(** [frames.append(frame_data)] over the source frames; [i] is the index
    [enumerate] hands to the body. *)
Fixpoint convert_frames_with (name : string) (i : nat) (frs : list FrameSource)
  : option (list CompiledFrame) :=
  match frs with
  | [] => Some []
  | fr :: rest =>
      frame_data ← convert_frame_with name i fr;
      frames ← convert_frames_with name (S i) rest;
      Some (frame_data :: frames)
  end.

Definition convert_anim_with (name : string) (data : AnimationSource)
  : option CompiledAnimation :=
  let wrap := default "once" (wrapMode data) in
  let loop_start := default 0 (loopStartFrame data) in
  let is_loop := String.eqb wrap "loop" in
  frames ← convert_frames_with name 0 (frames data);
  Some (mkAnimation is_loop
          (if is_loop && (0 <? loop_start) then Some loop_start else None)
          frames).

End Engine.

(** The script's functions: the engine over the script's own tables. *)
Definition convert_frame : string → nat → FrameSource → option CompiledFrame :=
  convert_frame_with MANUAL_DURATIONS MANUAL_ATK_BOXES.

Definition convert_anim : string → AnimationSource → option CompiledAnimation :=
  convert_anim_with MANUAL_DURATIONS MANUAL_ATK_BOXES.

(** [getSigmaAnim(state)] of the generated module, over the table
    [SIGMA_ANIMATIONS], an object literal read through [Object.prototype];
    every value [SIGMA_ANIMATIONS[state]] can be is truthy. *)
Definition getSigmaAnim (SIGMA_ANIMATIONS : gmap string CompiledAnimation)
    (state : string) : option (JS.value CompiledAnimation) :=
  match JS.get SIGMA_ANIMATIONS state with
  | Some a => Some a
  | None => JS.get SIGMA_ANIMATIONS "idle"
  end.

End Sigma.

(** ** What one pass of the loop body computes, in closed form *)

Definition has_tag (t : string) (poi : POI) : bool :=
  String.eqb (poi_tag poi) t.

(** The pair a matching POI assigns to [hx] and [hy]. *)
Definition poi_anchor (poi : POI) : option (Z * Z) :=
  x ← Py.int_round (default (Py.PyInt 0) (poi_x poi));
  y ← Py.int_round (default (Py.PyInt 0) (poi_y poi));
  Some (x, y).

(** The pairs assigned during the scan, in the order of the assignments. *)
Definition anchors (t : string) (pois : list POI) : option (list (Z * Z)) :=
  mapM poi_anchor (List.filter (has_tag t) pois).

(** The pair [hx], [hy] hold after the scan: the last one assigned. *)
Definition final_anchor (t : string) (pois : list POI) : option (option (Z * Z)) :=
  match anchors t pois with
  | Some l => Some (list.last l)
  | None => None
  end.

Definition put_anchor (a : option (Z * Z)) (fd : CompiledFrame) : CompiledFrame :=
  match a with
  | Some (x, y) => set_hy y (set_hx x fd)
  | None => fd
  end.

(** The attack box the hitbox block leaves in [frame_data]. *)
Definition json_atkBox (fr : FrameSource) : option (option AtkBox) :=
  match List.filter is_active (default [] (hitboxes fr)) with
  | hb :: _ => b ← hitbox_atkBox hb; Some (Some b)
  | [] => Some None
  end.

Definition nonzero (v : Z) : option Z := if v =? 0 then None else Some v.

(** One frame, given the primary tag and the two overrides that apply to
    it (if any). *)
Definition frame_closed_form (t : string) (dur_ov : option Z)
    (box_ov : option AtkBox) (fr : FrameSource) : option CompiledFrame :=
  '(sx, sy, sw, sh) ← frame_rect fr;
  d ← frame_duration fr;
  '(ox, oy) ← frame_offset fr;
  a ← final_anchor t (default [] (POIs fr));
  ab ← json_atkBox fr;
  Some (mkFrame sx sy sw sh (default d dur_ov) (nonzero ox) (nonzero oy)
          (fst <$> a) (snd <$> a)
          (match box_ov with Some b => Some b | None => ab end)).

(** Source frames with one field replaced. *)
Definition with_POIs (pois : list POI) (fr : FrameSource) : FrameSource :=
  mkFrameSource (rect fr) (duration fr) (offset fr) (Some pois) (hitboxes fr).

Definition with_hitboxes (hbs : list Hitbox) (fr : FrameSource) : FrameSource :=
  mkFrameSource (rect fr) (duration fr) (offset fr) (POIs fr) (Some hbs).

(** ** The two scripts behind one interface *)

Inductive script : Type := ZeroScript | SigmaScript.

(** The tag the POI scan of the script compares with. *)
Definition primary_tag (c : script) : string :=
  match c with
  | ZeroScript => "b"
  | SigmaScript => ""
  end.

(** The entry of the script's duration table for frame [i] of [name];
    build_zero_sprites.py has no such table. *)
Definition duration_override (c : script) (name : string) (i : nat) : option Z :=
  match c with
  | ZeroScript => None
  | SigmaScript => Sigma.override Sigma.MANUAL_DURATIONS name i
  end.

Definition atkBox_override (c : script) (name : string) (i : nat)
  : option AtkBox :=
  match c with
  | ZeroScript => None
  | SigmaScript => Sigma.override Sigma.MANUAL_ATK_BOXES name i
  end.

(** The loop body of the script on frame [i] of the animation [name]. *)
Definition convert_frame_of (c : script) (name : string) (i : nat)
    (fr : FrameSource) : option CompiledFrame :=
  match c with
  | ZeroScript => Zero.convert_frame fr
  | SigmaScript => Sigma.convert_frame name i fr
  end.

Definition convert_anim_of (c : script) (name : string)
    (data : AnimationSource) : option CompiledAnimation :=
  match c with
  | ZeroScript => Zero.convert_anim name data
  | SigmaScript => Sigma.convert_anim name data
  end.

(** ** Vocabulary of the statements *)

(** The float is not below zero: its sign bit is clear, or it is a zero
    or a NaN. *)
Definition float_not_negative (f : float) : bool :=
  match Prim2SF f with
  | S754_finite true _ _ | S754_infinity true => false
  | _ => true
  end.

Definition not_negative (x : Py.num) : bool :=
  match x with
  | Py.PyInt z => 0 <=? z
  | Py.PyFloat f => float_not_negative f
  end.

(** The compiled rectangle is the source rectangle with [cut] applied to
    each corner coordinate before the subtractions. *)
Definition rect_by (cut : Py.num → option Z) (fr : FrameSource)
    (cf : CompiledFrame) : Prop :=
  ∃ bx by_,
    cut (pt_x (topLeftPoint (rect fr))) = Some (sx cf)
    ∧ cut (pt_y (topLeftPoint (rect fr))) = Some (sy cf)
    ∧ cut (pt_x (botRightPoint (rect fr))) = Some bx
    ∧ cut (pt_y (botRightPoint (rect fr))) = Some by_
    ∧ sw cf = bx - sx cf
    ∧ sh cf = by_ - sy cf.

Definition corners_not_negative (fr : FrameSource) : Prop :=
  not_negative (pt_x (topLeftPoint (rect fr))) = true
  ∧ not_negative (pt_y (topLeftPoint (rect fr))) = true
  ∧ not_negative (pt_x (botRightPoint (rect fr))) = true
  ∧ not_negative (pt_y (botRightPoint (rect fr))) = true.

(** [hx], [hy] of [cf] are the rounded coordinates of the POI [p]. *)
Definition rounded_anchor (p : POI) (cf : CompiledFrame) : Prop :=
  ∃ x y,
    Py.round (default (Py.PyInt 0) (poi_x p)) = Some x
    ∧ Py.round (default (Py.PyInt 0) (poi_y p)) = Some y
    ∧ hx cf = Some x
    ∧ hy cf = Some y.

(** [b] holds the rounded width, height and offset of the hitbox [hb]. *)
Definition rounded_box (hb : Hitbox) (b : AtkBox) : Prop :=
  Py.round (default (Py.PyInt 0) (width hb)) = Some (ab_w b)
  ∧ Py.round (default (Py.PyInt 0) (height hb)) = Some (ab_h b)
  ∧ Py.round (default (Py.PyInt 0)
                (off_x (default empty_offset (hb_offset hb)))) = Some (ab_ox b)
  ∧ Py.round (default (Py.PyInt 0)
                (off_y (default empty_offset (hb_offset hb)))) = Some (ab_oy b).

(** The override table without its entry for frame [i] of [name]. *)
Definition remove_override {A} (name : string) (i : nat)
    (table : gmap string (gmap nat A)) : gmap string (gmap nat A) :=
  alter (delete i) name table.

(** The lookup as the specification words it: the overlay of [state] when
    firing, the character has an overlay map, [state] is in it and the
    overlay is in the table; else the entry of [state]; else [idle]. *)
Definition resolve_spec (overlay : option (gmap string string))
    (table : gmap string CompiledAnimation) (state : string) (firing : bool)
  : option CompiledAnimation :=
  let direct :=
    match table !! state with
    | Some a => Some a
    | None => table !! "idle"
    end in
  match overlay with
  | Some shoot_map =>
      if firing then
        match shoot_map !! state with
        | Some over =>
            match table !! over with
            | Some a => Some a
            | None => direct
            end
        | None => direct
        end
      else direct
  | None => direct
  end.

(** The two overrides of a frame, applied to the frame compiled without
    any table. *)
Definition apply_overrides (dur_ov : option Z) (box_ov : option AtkBox)
    (cf : CompiledFrame) : CompiledFrame :=
  mkFrame (sx cf) (sy cf) (sw cf) (sh cf) (default (dur cf) dur_ov)
          (ox cf) (oy cf) (hx cf) (hy cf)
          (match box_ov with Some b => Some b | None => atkBox cf end).

(** The number is an [int] or a finite [float]: neither an infinity nor
    a NaN. *)
Definition finite (x : Py.num) : Prop :=
  match x with
  | Py.PyInt _ => True
  | Py.PyFloat f =>
      match Prim2SF f with
      | S754_zero _ | S754_finite _ _ _ => True
      | S754_infinity _ | S754_nan => False
      end
  end.

(** Every number the loop body passes to [int] or [round] for the frame
    [fr] is finite: the four corner coordinates, the duration times 60,
    the two offsets, both coordinates of every POI with the primary tag
    [t], and the four numbers of the first active hitbox. *)
Definition frame_readable (t : string) (fr : FrameSource) : Prop :=
  (finite (pt_x (topLeftPoint (rect fr)))
   ∧ finite (pt_y (topLeftPoint (rect fr)))
   ∧ finite (pt_x (botRightPoint (rect fr)))
   ∧ finite (pt_y (botRightPoint (rect fr))))
  ∧ finite (Py.mul60 (default (Py.PyFloat 0.066) (duration fr)))
  ∧ (finite (default (Py.PyInt 0) (off_x (default empty_offset (offset fr))))
     ∧ finite (default (Py.PyInt 0) (off_y (default empty_offset (offset fr)))))
  ∧ Forall (λ p, finite (default (Py.PyInt 0) (poi_x p))
                 ∧ finite (default (Py.PyInt 0) (poi_y p)))
      (List.filter (has_tag t) (default [] (POIs fr)))
  ∧ match List.find is_active (default [] (hitboxes fr)) with
    | Some hb =>
        finite (default (Py.PyInt 0) (width hb))
        ∧ finite (default (Py.PyInt 0) (height hb))
        ∧ finite (default (Py.PyInt 0)
                    (off_x (default empty_offset (hb_offset hb))))
        ∧ finite (default (Py.PyInt 0)
                    (off_y (default empty_offset (hb_offset hb))))
    | None => True
    end.

(** ** The text the scripts write *)

(** [str(z)] of an [int], as an f-string renders it: decimal digits, with
    a leading minus sign below zero. *)
Definition py_str (z : Z) : string := NilZero.string_of_int (Z.to_int z).

(** [s[:-1]] *)
Fixpoint but_last (s : string) : string :=
  match s with
  | EmptyString => EmptyString
  | String c rest =>
      match rest with
      | EmptyString => EmptyString
      | String _ _ => String c (but_last rest)
      end
  end.

(** [parts.append(f"key:{f['key']}")] under [if 'key' in f]. *)
Definition append_if (key : string) (v : option Z) (parts : list string)
  : list string :=
  match v with
  | Some n => parts ++ [key +:+ ":" +:+ py_str n]
  | None => parts
  end.

(** [format_frame(f)], the same function in both scripts. *)
Definition format_frame (f : CompiledFrame) : string :=
  let parts :=
    ["sx:" +:+ py_str (sx f); "sy:" +:+ py_str (sy f); "sw:" +:+ py_str (sw f);
     "sh:" +:+ py_str (sh f); "dur:" +:+ py_str (dur f)] in
  let parts := append_if "ox" (ox f) parts in
  let parts := append_if "oy" (oy f) parts in
  let parts := append_if "hx" (hx f) parts in
  let parts := append_if "hy" (hy f) parts in
  let base := "{" +:+ String.concat ", " parts +:+ "}" in
  match atkBox f with
  | Some ab =>
      but_last base +:+ ", atkBox:{w:" +:+ py_str (ab_w ab)
        +:+ ",h:" +:+ py_str (ab_h ab)
        +:+ ",ox:" +:+ py_str (ab_ox ab)
        +:+ ",oy:" +:+ py_str (ab_oy ab) +:+ "}}"
  | None => base
  end.

(** [loop_start_str] of [main]: the condition is the truthiness of
    [anim['loopStart']], false on [None] and on 0. *)
Definition loop_start_str (anim : CompiledAnimation) : string :=
  match loopStart anim with
  | Some v => if v =? 0 then "" else ", loopStart: " +:+ py_str v
  | None => ""
  end.

Definition loop_str (anim : CompiledAnimation) : string :=
  if loop anim then "true" else "false".

(** The lines [main] appends for one animation: the opening line, one
    line per frame, the closing line. *)
Definition entry_lines (name : string) (anim : CompiledAnimation)
  : list string :=
  ("    " +:+ name +:+ ": { loop: " +:+ loop_str anim +:+ loop_start_str anim
     +:+ ", frames: [")
  :: ((λ f, "        " +:+ format_frame f +:+ ",") <$> cframes anim)
  ++ ["    ] },"].

Section MainLoop.

(** [convert_anim] of the script, and the sprite directory: the parsed
    document of every file that exists there.  Every file that exists is
    taken to be readable and to hold a document of the schema, so that
    [load_json] raises nothing but [FileNotFoundError]; a file that
    [json.load] rejects is outside the model. *)
Variable convert_anim : string → AnimationSource → option CompiledAnimation.
Variable files : gmap string AnimationSource.

(** [for name, filename in ANIMS.items()] with [lines] as it grows: a
    file that does not exist is skipped, an exception of [convert_anim]
    ends [main] before anything is written. *)
Fixpoint main_loop (anims : list (string * string)) (lines : list string)
  : option (list string) :=
  match anims with
  | [] => Some lines
  | (name, filename) :: rest =>
      match files !! filename with
      | None => main_loop rest lines
      | Some data =>
          anim ← convert_anim name data;
          main_loop rest (lines ++ entry_lines name anim)
      end
  end.

(** The same loop, keeping the entries instead of their text: name and
    compiled animation of every property of the object literal, in the
    order of the text. *)
Fixpoint table_entries (anims : list (string * string))
  : option (list (string * CompiledAnimation)) :=
  match anims with
  | [] => Some []
  | (name, filename) :: rest =>
      match files !! filename with
      | None => table_entries rest
      | Some data =>
          anim ← convert_anim name data;
          entries ← table_entries rest;
          Some ((name, anim) :: entries)
      end
  end.

(** The object the literal evaluates to. *)
Definition table_of (anims : list (string * string))
  : option (gmap string CompiledAnimation) :=
  match table_entries anims with
  | Some entries => Some (list_to_map entries)
  | None => None
  end.

End MainLoop.

Module ZeroMain.

(** [ANIMS], in the order of the dictionary display. *)
Definition ANIMS : list (string * string) :=
  [("idle", "zero_idle.json"); ("run", "zero_run.json");
   ("jump", "zero_jump.json"); ("fall", "zero_fall.json");
   ("land", "zero_land.json"); ("dash", "zero_dash.json");
   ("wall_slide", "zero_wall_slide.json"); ("hurt", "zero_hurt.json");
   ("die", "zero_die.json"); ("warp_in", "zero_warp_in.json");
   ("warp_beam", "zero_warp_beam.json");
   ("shoot", "zero_shoot.json"); ("run_shoot", "zero_run_shoot.json");
   ("jump_shoot", "zero_jump_shoot.json");
   ("fall_shoot", "zero_fall_shoot.json");
   ("dash_shoot", "zero_dash_shoot.json");
   ("wall_slide_shoot", "zero_wall_slide_shoot.json");
   ("attack", "zero_attack.json"); ("attack2", "zero_attack2.json");
   ("attack3", "zero_attack3.json"); ("attack_air", "zero_attack_air.json")].

(** [ZERO_ANIMATIONS] of the module generated from the directory [files]. *)
Definition ZERO_ANIMATIONS (files : gmap string AnimationSource)
  : option (gmap string CompiledAnimation) :=
  table_of Zero.convert_anim files ANIMS.

End ZeroMain.

Module SigmaMain.

Definition ANIMS : list (string * string) :=
  [("idle", "sigma_idle.json"); ("run", "sigma_run.json");
   ("jump", "sigma_jump.json"); ("fall", "sigma_fall.json");
   ("land", "sigma_land.json"); ("dash", "sigma_dash.json");
   ("wall_slide", "sigma_wall_slide.json"); ("hurt", "sigma_hurt.json");
   ("die", "sigma_die.json"); ("warp_in", "sigma_warp_in.json");
   ("warp_beam", "sigma_warp_beam.json");
   ("shoot", "sigma_shoot.json");
   ("attack", "sigma_attack.json"); ("attack_air", "sigma_attack_air.json");
   ("attack_dash", "sigma_attack_dash.json");
   ("wall_slide_attack", "sigma_wall_slide_attack.json");
   ("proj_slash", "sigma_proj_slash.json")].

(** [SIGMA_ANIMATIONS] of the module generated from the directory [files]. *)
Definition SIGMA_ANIMATIONS (files : gmap string AnimationSource)
  : option (gmap string CompiledAnimation) :=
  table_of Sigma.convert_anim files ANIMS.

End SigmaMain.

(** The table, the animation list, the idle file and the lookup function
    of each script. *)
Definition anims_of (c : script) : list (string * string) :=
  match c with
  | ZeroScript => ZeroMain.ANIMS
  | SigmaScript => SigmaMain.ANIMS
  end.

Definition table_for (c : script) (files : gmap string AnimationSource)
  : option (gmap string CompiledAnimation) :=
  match c with
  | ZeroScript => ZeroMain.ZERO_ANIMATIONS files
  | SigmaScript => SigmaMain.SIGMA_ANIMATIONS files
  end.

Definition idle_file (c : script) : string :=
  match c with
  | ZeroScript => "zero_idle.json"
  | SigmaScript => "sigma_idle.json"
  end.

(** [getZeroAnim(state, firing)] or [getSigmaAnim(state)]. *)
Definition lookup_of (c : script) (member_key : string → string)
    (table : gmap string CompiledAnimation)
    (state : string) (firing : bool) : option (JS.value CompiledAnimation) :=
  match c with
  | ZeroScript => Zero.getZeroAnim member_key table state firing
  | SigmaScript => Sigma.getSigmaAnim table state
  end.

(** The overlay map the generated module of a script has, if any. *)
Definition overlay_of (c : script) : option (gmap string string) :=
  match c with
  | ZeroScript => Some Zero.ZERO_SHOOT_ANIM_MAP
  | SigmaScript => None
  end.

(** The shape of the text of a frame: the five mandatory fields, the
    optional ones in the order [ox], [oy], [hx], [hy], the attack box
    last. *)
Definition field_text (key : string) (v : option Z) : string :=
  match v with
  | Some n => ", " +:+ key +:+ ":" +:+ py_str n
  | None => ""
  end.

Definition box_text (b : option AtkBox) : string :=
  match b with
  | Some ab =>
      ", atkBox:{w:" +:+ py_str (ab_w ab) +:+ ",h:" +:+ py_str (ab_h ab)
        +:+ ",ox:" +:+ py_str (ab_ox ab) +:+ ",oy:" +:+ py_str (ab_oy ab)
        +:+ "}"
  | None => ""
  end.

Definition frame_text (f : CompiledFrame) : string :=
  "{sx:" +:+ py_str (sx f) +:+ ", sy:" +:+ py_str (sy f)
    +:+ ", sw:" +:+ py_str (sw f) +:+ ", sh:" +:+ py_str (sh f)
    +:+ ", dur:" +:+ py_str (dur f)
    +:+ field_text "ox" (ox f) +:+ field_text "oy" (oy f)
    +:+ field_text "hx" (hx f) +:+ field_text "hy" (hy f)
    +:+ box_text (atkBox f) +:+ "}".

(** The string starts with a comma or a closing brace. *)
Definition delimited (s : string) : bool :=
  match s with
  | String c _ => Ascii.eqb c ","%char || Ascii.eqb c "}"%char
  | EmptyString => false
  end.

Definition is_digit (c : Ascii.ascii) : bool :=
  (48 <=? Ascii.N_of_ascii c)%N && (Ascii.N_of_ascii c <=? 57)%N.

(** The block of an animation in the generated table, as a reader of the
    generated module sees it: the opening line with the name, the loop
    flag and the loop start if there is one; one line per frame holding
    the text of the frame and a comma; the closing line. *)
Definition block_text (name : string) (anim : CompiledAnimation)
  : list string :=
  ["    " +:+ name +:+ ": { loop: "
     +:+ (if loop anim then "true" else "false")
     +:+ match loopStart anim with
         | Some v => ", loopStart: " +:+ py_str v
         | None => ""
         end
     +:+ ", frames: ["]
  ++ ((λ f, "        " +:+ frame_text f +:+ ",") <$> cframes anim)
  ++ ["    ] },"].

(** ** tools/map-controller.py *)

Module Controller.

Definition AXIS_DEADZONE : float := 0.5.

(** An event of a batch [pygame.event.get()] returns, by its type, with
    the attributes the tool reads. *)
Inductive event : Type :=
  | QUIT
  | KEYDOWN (key : Z)
  | JOYBUTTONDOWN (button : Z)
  | JOYHATMOTION (hat : Z) (value : Z * Z)
  | JOYAXISMOTION (axis : Z) (value : float)
  | OTHER.

Definition K_ESCAPE : Z := 27.

(** What the joystick object answers at one moment: [get_button(b)],
    [get_axis(a)] and [get_hat(h)] for every index in range. *)
Record joystick : Type := mkJoystick {
  get_buttons : list bool;
  get_axes : list float;
  get_hats : list (Z * Z);
}.

(** The dictionaries [detect_any_input] returns, by their ["type"]. *)
Inductive input : Type :=
  | Button (index : Z)
  | Hat (index : Z) (value : Z * Z)
  | Axis (index : Z) (direction : Z).

(** [abs(val - rest) > AXIS_DEADZONE] *)
Definition beyond_deadzone (val rest : float) : bool :=
  (AXIS_DEADZONE <? abs (val - rest))%float.

(** [1 if val > rest else -1] *)
Definition direction_of (val rest : float) : Z :=
  if (rest <? val)%float then 1 else -1.

(** [hx != 0 or hy != 0] *)
Definition hat_pressed (v : Z * Z) : bool :=
  negb (v.1 =? 0) || negb (v.2 =? 0).

(** The loop of [read_axis_baseline], from axis [a] on. *)
Fixpoint fill_baseline (a : nat) (axes : list float) (baseline : gmap Z float)
  : gmap Z float :=
  match axes with
  | [] => baseline
  | v :: rest => fill_baseline (S a) rest (<[Z.of_nat a := v]> baseline)
  end.

Definition read_axis_baseline (js : joystick) : gmap Z float :=
  fill_baseline 0 (get_axes js) ∅.

(** [axis_baseline.get(a, 0.0) if axis_baseline else 0.0]: an empty
    dictionary is falsy, like [None]. *)
Definition rest_or_zero (axis_baseline : option (gmap Z float)) (a : Z)
  : float :=
  match axis_baseline with
  | Some baseline =>
      if bool_decide (size baseline = 0%nat) then 0%float
      else default 0%float (baseline !! a)
  | None => 0%float
  end.

(** The axis loop of [wait_for_release], from axis [a] on. *)
Fixpoint any_axis_active (axis_baseline : option (gmap Z float)) (a : nat)
    (axes : list float) : bool :=
  match axes with
  | [] => false
  | val :: more =>
      beyond_deadzone val (rest_or_zero axis_baseline (Z.of_nat a))
      || any_axis_active axis_baseline (S a) more
  end.

(** [any_active] after the three loops of one round of
    [wait_for_release]. *)
Definition any_active (js : joystick) (axis_baseline : option (gmap Z float))
  : bool :=
  existsb id (get_buttons js)
  || any_axis_active axis_baseline 0 (get_axes js)
  || existsb hat_pressed (get_hats js).

(** [wait_for_release] over the rounds still to come, each with the event
    batch it discards and the joystick state it reads: the rounds left
    when it returns, or [None] when it is still waiting at the end. *)
Fixpoint wait_for_release (axis_baseline : option (gmap Z float))
    (world : list (list event * joystick))
  : option (list (list event * joystick)) :=
  match world with
  | [] => None
  | (_, js) :: rest =>
      if any_active js axis_baseline then wait_for_release axis_baseline rest
      else Some rest
  end.

Section Detect.

Variable axis_baseline : gmap Z float.
Variables accept_buttons accept_axes accept_hats : bool.

(** The body of [for event in events]: [Some r] when it returns [r]. *)
Definition scan_event (ev : event) : option (option input) :=
  match ev with
  | QUIT => Some None
  | KEYDOWN key => if key =? K_ESCAPE then Some None else None
  | JOYBUTTONDOWN button =>
      if accept_buttons then Some (Some (Button button)) else None
  | JOYHATMOTION hat value =>
      if accept_hats && hat_pressed value then Some (Some (Hat hat value))
      else None
  | JOYAXISMOTION axis value =>
      let rest := default 0%float (axis_baseline !! axis) in
      if accept_axes && beyond_deadzone value rest
      then Some (Some (Axis axis (direction_of value rest)))
      else None
  | OTHER => None
  end.

Fixpoint scan_events (events : list event) : option (option input) :=
  match events with
  | [] => None
  | ev :: more =>
      match scan_event ev with
      | Some r => Some r
      | None => scan_events more
      end
  end.

(** The three polling loops, each from index [b], [h], [a] on. *)
Fixpoint poll_buttons (b : nat) (buttons : list bool) : option input :=
  match buttons with
  | [] => None
  | pressed :: more =>
      if pressed then Some (Button (Z.of_nat b)) else poll_buttons (S b) more
  end.

Fixpoint poll_hats (h : nat) (hats : list (Z * Z)) : option input :=
  match hats with
  | [] => None
  | v :: more =>
      if hat_pressed v then Some (Hat (Z.of_nat h) v) else poll_hats (S h) more
  end.

Fixpoint poll_axes (a : nat) (axes : list float) : option input :=
  match axes with
  | [] => None
  | val :: more =>
      let rest := default 0%float (axis_baseline !! Z.of_nat a) in
      if beyond_deadzone val rest
      then Some (Axis (Z.of_nat a) (direction_of val rest))
      else poll_axes (S a) more
  end.

(** The polling fallback: buttons, then hats, then axes. *)
Definition poll (js : joystick) : option input :=
  match (if accept_buttons then poll_buttons 0 (get_buttons js) else None) with
  | Some r => Some r
  | None =>
      match (if accept_hats then poll_hats 0 (get_hats js) else None) with
      | Some r => Some r
      | None => if accept_axes then poll_axes 0 (get_axes js) else None
      end
  end.

(** One round of the [while] loop: [Some r] when it returns [r], [None]
    when it goes to sleep. *)
Definition detect_round (events : list event) (js : joystick)
  : option (option input) :=
  match scan_events events with
  | Some r => Some r
  | None =>
      match poll js with
      | Some r => Some (Some r)
      | None => None
      end
  end.

(** The [while] loop over the rounds that fit before the timeout. *)
Fixpoint detect_loop (world : list (list event * joystick)) : option input :=
  match world with
  | [] => None
  | (events, js) :: rest =>
      match detect_round events js with
      | Some r => r
      | None => detect_loop rest
      end
  end.

End Detect.

(** [detect_any_input]: a missing baseline is the empty dictionary, the
    first batch is drained, then the loop runs. *)
Definition detect_any_input (world : list (list event * joystick))
    (axis_baseline : option (gmap Z float))
    (accept_buttons accept_axes accept_hats : bool) : option input :=
  let axis_baseline := default ∅ axis_baseline in
  match world with
  | [] => None
  | _ :: rest =>
      detect_loop axis_baseline accept_buttons accept_axes accept_hats rest
  end.

End Controller.

(** The input is of a kind the caller of [detect_any_input] accepted; a
    reported hat is off centre and a reported axis direction is 1 or -1. *)
Definition accepted_kind (accept_buttons accept_axes accept_hats : bool)
    (r : Controller.input) : Prop :=
  match r with
  | Controller.Button _ => accept_buttons = true
  | Controller.Hat _ v =>
      accept_hats = true ∧ Controller.hat_pressed v = true
  | Controller.Axis _ d => accept_axes = true ∧ (d = 1 ∨ d = -1)
  end.

(** ** Sample documents *)

Definition corner (x y : Py.num) : Point := mkPoint x y.

(** A frame with only the mandatory rectangle, (0,0)-(32,48). *)
Definition plain_frame : FrameSource :=
  mkFrameSource
    (mkRect (corner (Py.PyInt 0) (Py.PyInt 0)) (corner (Py.PyInt 32) (Py.PyInt 48)))
    None None None None.

(** A frame of 0.0166 s whose corners have fractional parts. *)
Definition short_frame : FrameSource :=
  mkFrameSource
    (mkRect (corner (Py.PyFloat 8.75) (Py.PyInt 16))
            (corner (Py.PyFloat 40.5) (Py.PyFloat 64.25)))
    (Some (Py.PyFloat 0.0166)) None None None.

(** A frame of 0.375 s: 22.5 game frames, halfway between 22 and 23. *)
Definition tie_frame : FrameSource :=
  mkFrameSource
    (mkRect (corner (Py.PyInt 0) (Py.PyInt 0)) (corner (Py.PyInt 32) (Py.PyInt 48)))
    (Some (Py.PyFloat 0.375)) None None None.

(** A frame of 0.125 s: 7.5 game frames, halfway between 7 and 8. *)
Definition odd_tie_frame : FrameSource :=
  mkFrameSource
    (mkRect (corner (Py.PyInt 0) (Py.PyInt 0)) (corner (Py.PyInt 32) (Py.PyInt 48)))
    (Some (Py.PyFloat 0.125)) None None None.

(** A frame whose top-left corner lies half a pixel left of the sheet. *)
Definition overhang_frame : FrameSource :=
  mkFrameSource
    (mkRect (corner (Py.PyFloat (-0.5)) (Py.PyInt 0))
            (corner (Py.PyInt 32) (Py.PyInt 48)))
    None None None None.

Definition tagged (t : string) (x y : Py.num) : POI :=
  mkPOI (Some t) (Some x) (Some y).

(** Two POIs carry the tag ["b"], at (1,2) and then at (3,4). *)
Definition two_buster_frame : FrameSource :=
  with_POIs [tagged "b" (Py.PyInt 1) (Py.PyInt 2);
             tagged "b" (Py.PyInt 3) (Py.PyInt 4)] plain_frame.

(** POIs of several tags; the one without a [tags] key reads as [""]. *)
Definition mixed_poi_frame : FrameSource :=
  with_POIs [tagged "h" (Py.PyInt 5) (Py.PyInt 5);
             tagged "b" (Py.PyInt 1) (Py.PyInt 2);
             mkPOI None (Some (Py.PyInt 7)) (Some (Py.PyFloat 8.5));
             tagged "b" (Py.PyFloat 3.5) (Py.PyFloat 4.5)] plain_frame.

Definition box (fl : option Py.num) (w h x y : Py.num) : Hitbox :=
  mkHitbox fl (Some w) (Some h) (Some (mkOffset (Some x) (Some y))).

(** A flag-1 box, then two flag-0 boxes. *)
Definition flagged_frame : FrameSource :=
  with_hitboxes
    [box (Some (Py.PyInt 1)) (Py.PyInt 9) (Py.PyInt 9) (Py.PyInt 0) (Py.PyInt 0);
     box (Some (Py.PyInt 0)) (Py.PyFloat 20.5) (Py.PyInt 30) (Py.PyInt 4)
         (Py.PyFloat (-12.5));
     box (Some (Py.PyInt 0)) (Py.PyInt 1) (Py.PyInt 1) (Py.PyInt 1) (Py.PyInt 1)]
    plain_frame.

(** A flag-1 box, then a box without a [flag] key, then a flag-0 box. *)
Definition unflagged_box : Hitbox :=
  box None (Py.PyInt 14) (Py.PyFloat 22.6) (Py.PyInt 3) (Py.PyInt (-7)).

Definition unflagged_frame : FrameSource :=
  with_hitboxes
    [box (Some (Py.PyInt 1)) (Py.PyInt 9) (Py.PyInt 9) (Py.PyInt 0) (Py.PyInt 0);
     unflagged_box;
     box (Some (Py.PyInt 0)) (Py.PyInt 1) (Py.PyInt 1) (Py.PyInt 1) (Py.PyInt 1)]
    plain_frame.

(** One frame only, to be converted under the name ["attack"], whose
    tables have entries up to frame 3. *)
Definition one_frame_clip : AnimationSource :=
  mkAnimationSource None None [plain_frame].

(** Four frames without hitboxes. *)
Definition four_frame_clip : AnimationSource :=
  mkAnimationSource (Some "once") None
    [plain_frame; short_frame; plain_frame; short_frame].

(** A looping clip of one frame that names frame 5 as its loop start. *)
Definition stray_loop_clip : AnimationSource :=
  mkAnimationSource (Some "loop") (Some 5) [plain_frame].

(** A looping clip of two frames that restarts at frame 1. *)
Definition loop_clip : AnimationSource :=
  mkAnimationSource (Some "loop") (Some 1) [plain_frame; short_frame].

(** A frame with a rendering offset of (0.4, -1.5). *)
Definition offset_frame : FrameSource :=
  mkFrameSource
    (mkRect (corner (Py.PyInt 0) (Py.PyInt 0)) (corner (Py.PyInt 32) (Py.PyInt 48)))
    None (Some (mkOffset (Some (Py.PyFloat 0.4)) (Some (Py.PyFloat (-1.5)))))
    None None.

(** A sprite directory with three of Zero's clips. *)
Definition zero_files : gmap string AnimationSource :=
  list_to_map [("zero_idle.json", one_frame_clip);
               ("zero_run.json", loop_clip);
               ("zero_run_shoot.json", stray_loop_clip)].

Definition zero_files_table : gmap string CompiledAnimation :=
  list_to_map
    [("idle", mkAnimation false None
                [mkFrame 0 0 32 48 4 None None None None None]);
     ("run", mkAnimation true (Some 1)
               [mkFrame 0 0 32 48 4 None None None None None;
                mkFrame 8 16 32 48 1 None None None None None]);
     ("run_shoot", mkAnimation true (Some 5)
                     [mkFrame 0 0 32 48 4 None None None None None])].

(** A sprite directory that holds the idle and the attack clip of Sigma. *)
Definition sigma_files : gmap string AnimationSource :=
  list_to_map [("sigma_idle.json", one_frame_clip);
               ("sigma_attack.json", four_frame_clip)].

(** A pad whose triggers rest at -1.0, with nothing pressed, and the
    same pad with button 2 held. *)
Definition resting_pad : Controller.joystick :=
  Controller.mkJoystick [false; false; false; false]
    [0%float; 0.25%float; (-1)%float; (-1)%float] [(0, 0)].

Definition held_pad : Controller.joystick :=
  Controller.mkJoystick [false; false; true; false]
    [0%float; 0.25%float; (-1)%float; (-1)%float] [(0, 0)].

(** * Proofs *)

(** ** Numerics *)

Lemma int_round_round x : Py.int_round x = Py.round x.
Proof. unfold Py.int_round. by destruct (Py.round x). Qed.

Lemma int_floor_not_negative x :
  not_negative x = true → Py.int x = Py.floor x.
Proof.
  destruct x as [z|f]; simpl; [done|].
  unfold float_not_negative, Py.float_int, Py.float_floor.
  by destruct (Prim2SF f) as [| [] | | [] m e].
Qed.

(** ** The scan over the POIs *)

Lemma put_anchor_last a l fd :
  put_anchor (list.last (a :: l)) fd
  = put_anchor (list.last l) (put_anchor (Some a) fd).
Proof.
  rewrite last_cons. destruct (list.last l) as [[x y]|]; by destruct a.
Qed.

Lemma anchors_cons t poi rest :
  anchors t (poi :: rest)
  = if has_tag t poi then
      match poi_anchor poi, anchors t rest with
      | Some a, Some l => Some (a :: l)
      | _, _ => None
      end
    else anchors t rest.
Proof.
  unfold anchors. simpl. destruct (has_tag t poi); [|done].
  simpl. destruct (poi_anchor poi); [|done]. simpl.
  by destruct (mapM poi_anchor (List.filter (has_tag t) rest)).
Qed.

Lemma zero_scan_pois_closed pois fd :
  Zero.scan_pois pois fd
  = match anchors "b" pois with
    | Some l => Some (put_anchor (list.last l) fd)
    | None => None
    end.
Proof.
  revert fd. induction pois as [|poi rest IH]; intros fd; [done|].
  rewrite anchors_cons. unfold has_tag, poi_anchor. simpl.
  destruct (String.eqb (poi_tag poi) "b"); [|by apply IH].
  destruct (Py.int_round (default (Py.PyInt 0) (poi_x poi))) as [x|]; [|done].
  destruct (Py.int_round (default (Py.PyInt 0) (poi_y poi))) as [y|]; [|done].
  simpl. rewrite IH.
  destruct (anchors "b" rest) as [l|]; [|done].
  by rewrite put_anchor_last.
Qed.

Lemma sigma_scan_pois_closed pois fd :
  Sigma.scan_pois pois fd
  = match anchors "" pois with
    | Some l => Some (put_anchor (list.last l) fd)
    | None => None
    end.
Proof.
  revert fd. induction pois as [|poi rest IH]; intros fd; [done|].
  rewrite anchors_cons. unfold has_tag, poi_anchor. simpl.
  destruct (String.eqb (poi_tag poi) "").
  - destruct (Py.int_round (default (Py.PyInt 0) (poi_x poi))) as [x|]; [|done].
    destruct (Py.int_round (default (Py.PyInt 0) (poi_y poi))) as [y|]; [|done].
    simpl. rewrite IH.
    destruct (anchors "" rest) as [l|]; [|done].
    by rewrite put_anchor_last.
  - by destruct (_ && _).
Qed.

Lemma anchors_filter t pois :
  anchors t (List.filter (has_tag t) pois) = anchors t pois.
Proof.
  unfold anchors. f_equal.
  induction pois as [|poi rest IH]; [done|].
  simpl. destruct (has_tag t poi) eqn:Hp; [|done].
  simpl. by rewrite Hp, IH.
Qed.

(** ** The loop body against its closed form *)

Lemma json_hitboxes_closed fr fd :
  json_hitboxes fr fd
  = match json_atkBox fr with
    | Some (Some b) => Some (set_atkBox b fd)
    | Some None => Some fd
    | None => None
    end.
Proof.
  unfold json_hitboxes, json_atkBox.
  destruct (List.filter is_active (default [] (hitboxes fr))) as [|hb l]; [done|].
  by destruct (hitbox_atkBox hb).
Qed.

Lemma zero_convert_frame_closed fr :
  Zero.convert_frame fr = frame_closed_form "b" None None fr.
Proof.
  unfold Zero.convert_frame, frame_closed_form, final_anchor.
  destruct (frame_rect fr) as [[[[x y] w] h]|]; [|done].
  destruct (frame_duration fr) as [d|]; [|done].
  destruct (frame_offset fr) as [[ox oy]|]; [|done].
  simpl. rewrite zero_scan_pois_closed.
  destruct (anchors "b" (default [] (POIs fr))) as [l|]; [|done].
  simpl. rewrite json_hitboxes_closed.
  destruct (json_atkBox fr) as [[b|]|]; [| |done];
    unfold init_frame_data, nonzero;
    destruct (list.last l) as [[px py]|], (ox =? 0), (oy =? 0); done.
Qed.

Lemma sigma_convert_frame_closed D B name i fr :
  Sigma.convert_frame_with D B name i fr
  = frame_closed_form "" (Sigma.override D name i) (Sigma.override B name i) fr.
Proof.
  unfold Sigma.convert_frame_with, frame_closed_form, final_anchor.
  destruct (frame_rect fr) as [[[[x y] w] h]|]; [|done].
  destruct (frame_duration fr) as [d|]; [|done].
  destruct (frame_offset fr) as [[ox oy]|]; [|done].
  simpl. rewrite sigma_scan_pois_closed.
  destruct (anchors "" (default [] (POIs fr))) as [l|]; [|done].
  simpl. rewrite json_hitboxes_closed.
  destruct (json_atkBox fr) as [[b|]|]; [| |done];
    unfold init_frame_data, nonzero;
    destruct (Sigma.override D name i), (Sigma.override B name i),
      (list.last l) as [[px py]|], (ox =? 0), (oy =? 0); done.
Qed.

Lemma frame_closed_form_inv t dur_ov box_ov fr cf :
  frame_closed_form t dur_ov box_ov fr = Some cf →
  ∃ x y w h d ox oy a ab,
    frame_rect fr = Some (x, y, w, h)
    ∧ frame_duration fr = Some d
    ∧ frame_offset fr = Some (ox, oy)
    ∧ final_anchor t (default [] (POIs fr)) = Some a
    ∧ json_atkBox fr = Some ab
    ∧ cf = mkFrame x y w h (default d dur_ov) (nonzero ox) (nonzero oy)
             (fst <$> a) (snd <$> a)
             (match box_ov with Some b => Some b | None => ab end).
Proof.
  unfold frame_closed_form. intros H.
  destruct (frame_rect fr) as [[[[x y] w] h]|]; [|done].
  destruct (frame_duration fr) as [d|]; [|done].
  destruct (frame_offset fr) as [[ox oy]|]; [|done].
  destruct (final_anchor t (default [] (POIs fr))) as [a|]; [|done].
  destruct (json_atkBox fr) as [ab|]; [|done].
  simpl in H. injection H as <-. by exists x, y, w, h, d, ox, oy, a, ab.
Qed.

Lemma frame_rect_inv fr x y w h :
  frame_rect fr = Some (x, y, w, h) →
  ∃ bx by_,
    Py.int (pt_x (topLeftPoint (rect fr))) = Some x
    ∧ Py.int (pt_y (topLeftPoint (rect fr))) = Some y
    ∧ Py.int (pt_x (botRightPoint (rect fr))) = Some bx
    ∧ Py.int (pt_y (botRightPoint (rect fr))) = Some by_
    ∧ w = bx - x ∧ h = by_ - y.
Proof.
  unfold frame_rect. intros H.
  destruct (Py.int (pt_x (topLeftPoint (rect fr)))) as [x'|]; [|done].
  destruct (Py.int (pt_y (topLeftPoint (rect fr)))) as [y'|]; [|done].
  destruct (Py.int (pt_x (botRightPoint (rect fr)))) as [bx|]; [|done].
  destruct (Py.int (pt_y (botRightPoint (rect fr)))) as [by_|]; [|done].
  simpl in H. injection H as <- <- <- <-. by exists bx, by_.
Qed.

Lemma frame_duration_inv fr d :
  frame_duration fr = Some d →
  ∃ r, Py.round (Py.mul60 (default (Py.PyFloat 0.066) (duration fr))) = Some r
       ∧ d = Z.max 1 r.
Proof.
  unfold frame_duration. intros H.
  destruct (Py.round _) as [r|]; [|done].
  simpl in H. injection H as <-. by exists r.
Qed.

(** ** The loop over the frames *)

Lemma zero_convert_frames_Forall2 frs cfs :
  Zero.convert_frames frs = Some cfs →
  Forall2 (λ fr cf, Zero.convert_frame fr = Some cf) frs cfs.
Proof.
  revert cfs. induction frs as [|fr rest IH]; intros cfs H; simpl in H.
  - injection H as <-. constructor.
  - destruct (Zero.convert_frame fr) as [cf|] eqn:Hcf; [|done].
    destruct (Zero.convert_frames rest) as [cfs'|]; [|done].
    simpl in H. injection H as <-. constructor; [done|by apply IH].
Qed.

Section SigmaFrames.

Variable D : gmap string (gmap nat Z).
Variable B : gmap string (gmap nat AtkBox).
Variable name : string.

(** Frame [k] of the output is the body's result on frame [k] of the
    source, run with the index [i + k]. *)
Lemma sigma_convert_frames_lookup i frs cfs :
  Sigma.convert_frames_with D B name i frs = Some cfs →
  length cfs = length frs
  ∧ ∀ (k : nat) cf, cfs !! k = Some cf →
      ∃ fr, frs !! k = Some fr
            ∧ Sigma.convert_frame_with D B name (i + k) fr = Some cf.
Proof.
  revert i cfs. induction frs as [|fr rest IH]; intros i cfs H; simpl in H.
  - injection H as <-. split; [done|]. intros k cf Hk. by destruct k.
  - destruct (Sigma.convert_frame_with D B name i fr) as [cf0|] eqn:Hcf; [|done].
    destruct (Sigma.convert_frames_with D B name (S i) rest) as [cfs'|] eqn:Hr;
      [|done].
    simpl in H. injection H as <-.
    destruct (IH _ _ Hr) as [Hlen Hlk]. split; [simpl; by rewrite Hlen|].
    intros [|k] cf Hk; simpl in Hk.
    + injection Hk as <-. exists fr. split; [done|].
      by replace (i + 0)%nat with i by lia.
    + destruct (Hlk k cf Hk) as (fr' & Hfr & Hc). exists fr'. split; [done|].
      by replace (i + S k)%nat with (S i + k)%nat by lia.
Qed.

End SigmaFrames.

(** The overrides the loop can reach are those of the frames it visits. *)
Lemma sigma_convert_frames_ext D B D' B' name i frs :
  (∀ k : nat, (k < length frs)%nat →
     Sigma.override D name (i + k) = Sigma.override D' name (i + k)
     ∧ Sigma.override B name (i + k) = Sigma.override B' name (i + k)) →
  Sigma.convert_frames_with D B name i frs
  = Sigma.convert_frames_with D' B' name i frs.
Proof.
  revert i. induction frs as [|fr rest IH]; intros i H; [done|].
  simpl. rewrite !sigma_convert_frame_closed.
  destruct (H 0%nat) as [Hd Hb]; [simpl; lia|].
  replace (i + 0)%nat with i in Hd, Hb by lia. rewrite Hd, Hb.
  rewrite (IH (S i)); [done|].
  intros k Hk. replace (S i + k)%nat with (i + S k)%nat by lia.
  apply H. simpl. lia.
Qed.

Lemma convert_frame_of_closed c name i fr :
  convert_frame_of c name i fr
  = frame_closed_form (primary_tag c) (duration_override c name i)
      (atkBox_override c name i) fr.
Proof.
  destruct c; simpl.
  - apply zero_convert_frame_closed.
  - apply sigma_convert_frame_closed.
Qed.

(** ** Geometry and timing *)

Lemma rect_by_floor fr cf :
  corners_not_negative fr → rect_by Py.int fr cf → rect_by Py.floor fr cf.
Proof.
  intros (H1 & H2 & H3 & H4) (bx & by_ & E).
  exists bx, by_. by rewrite <- !int_floor_not_negative.
Qed.

(** C4, amended: the compiled rectangle is the source rectangle with each
    corner coordinate cut towards zero by [int] before the subtractions:
    x = int(topLeft.x), y = int(topLeft.y), width = int(botRight.x) - x,
    height = int(botRight.y) - y.  Where no corner coordinate is negative
    this is the floor of each coordinate, as the claim has it. *)
Theorem C4_rectangle_cut_towards_zero c name i fr cf :
  convert_frame_of c name i fr = Some cf →
  rect_by Py.int fr cf
  ∧ (corners_not_negative fr → rect_by Py.floor fr cf).
Proof.
  rewrite convert_frame_of_closed. intros H.
  apply frame_closed_form_inv in H
    as (x & y & w & h & d & ox & oy & a & ab & Hr & _ & _ & _ & _ & ->).
  apply frame_rect_inv in Hr as (bx & by_ & ? & ? & ? & ? & ? & ?).
  assert (rect_by Py.int fr
            (mkFrame x y w h (default d (duration_override c name i))
               (nonzero ox) (nonzero oy) (fst <$> a) (snd <$> a)
               (match atkBox_override c name i with
                | Some b => Some b
                | None => ab
                end))) as Hint by (by exists bx, by_).
  split; [done|]. intros Hnn. by apply rect_by_floor.
Qed.

Lemma C4_rectangle_witness :
  rect_by Py.int short_frame (mkFrame 8 16 32 48 1 None None None None None)
  ∧ (corners_not_negative short_frame →
     rect_by Py.floor short_frame
       (mkFrame 8 16 32 48 1 None None None None None)).
Proof.
  apply (C4_rectangle_cut_towards_zero ZeroScript "idle" 0 short_frame).
  vm_compute. reflexivity.
Defined.

(** C4 as stated fails: on a corner at x = -0.5 both scripts compile
    sx = 0 and sw = 32, while floor(-0.5) = -1 and the width by floors
    would be 33. *)
Lemma C4_floor_counterexample :
  Zero.convert_frame overhang_frame
    = Some (mkFrame 0 0 32 48 4 None None None None None)
  ∧ Sigma.convert_frame "idle" 0 overhang_frame
    = Some (mkFrame 0 0 32 48 4 None None None None None)
  ∧ Py.floor (pt_x (topLeftPoint (rect overhang_frame))) = Some (-1)
  ∧ Py.floor (pt_x (botRightPoint (rect overhang_frame))) = Some 32.
Proof. vm_compute. done. Qed.

(** C3: without a duration override the compiled duration is
    max(1, round(dur_sec * 60)), dur_sec being 0.066 when the frame has no
    [duration] key; a frame of 0.0166 s compiles to duration 1.  In
    numbers: no [duration] key gives 4; an integer number of seconds [z]
    gives [max 1 (z * 60)]; 0.5 s gives 30; 0.125 s, which is 7.5 game
    frames, gives 8 and 0.375 s, which is 22.5, gives 22, the even
    neighbour; 0.001 s and 0 s give 1. *)
Theorem C3_duration_from_seconds c name i fr cf :
  convert_frame_of c name i fr = Some cf →
  duration_override c name i = None →
  (∃ r, Py.round (Py.mul60 (default (Py.PyFloat 0.066) (duration fr))) = Some r
        ∧ dur cf = Z.max 1 r)
  ∧ (duration fr = Some (Py.PyFloat 0.0166) → dur cf = 1)
  ∧ (duration fr = None → dur cf = 4)
  ∧ (∀ z, duration fr = Some (Py.PyInt z) → dur cf = Z.max 1 (z * 60))
  ∧ (duration fr = Some (Py.PyFloat 0.5) → dur cf = 30)
  ∧ (duration fr = Some (Py.PyFloat 0.125) → dur cf = 8)
  ∧ (duration fr = Some (Py.PyFloat 0.375) → dur cf = 22)
  ∧ (duration fr = Some (Py.PyFloat 0.001) → dur cf = 1)
  ∧ (duration fr = Some (Py.PyFloat 0) → dur cf = 1).
Proof.
  rewrite convert_frame_of_closed. intros H Hov. rewrite Hov in H.
  apply frame_closed_form_inv in H
    as (x & y & w & h & d & ox & oy & a & ab & _ & Hd & _ & _ & _ & ->).
  apply frame_duration_inv in Hd as (r & Hr & ->). simpl.
  split; [by exists r|].
  split; [|split; [|split; [|split; [|split; [|split; [|split]]]]]].
  all: try (intros Hs; rewrite Hs in Hr; vm_compute in Hr;
            by injection Hr as <-).
  intros z Hs. rewrite Hs in Hr. simpl in Hr. by injection Hr as <-.
Qed.

Lemma C3_duration_witness :
  (convert_frame_of ZeroScript "idle" 0 odd_tie_frame
     = Some (mkFrame 0 0 32 48 8 None None None None None)
   ∧ ∃ r, Py.round (Py.mul60 (default (Py.PyFloat 0.066)
                                  (duration odd_tie_frame))) = Some r
          ∧ dur (mkFrame 0 0 32 48 8 None None None None None) = Z.max 1 r)
  ∧ convert_frame_of SigmaScript "attack" 7 tie_frame
    = Some (mkFrame 0 0 32 48 22 None None None None None)
  ∧ (∃ r, Py.round (Py.mul60 (default (Py.PyFloat 0.066) (duration tie_frame)))
          = Some r
          ∧ dur (mkFrame 0 0 32 48 22 None None None None None) = Z.max 1 r)
  ∧ (duration tie_frame = Some (Py.PyFloat 0.0166) →
     dur (mkFrame 0 0 32 48 22 None None None None None) = 1)
  ∧ (duration tie_frame = None →
     dur (mkFrame 0 0 32 48 22 None None None None None) = 4)
  ∧ (∀ z, duration tie_frame = Some (Py.PyInt z) →
          dur (mkFrame 0 0 32 48 22 None None None None None)
          = Z.max 1 (z * 60))
  ∧ (duration tie_frame = Some (Py.PyFloat 0.5) →
     dur (mkFrame 0 0 32 48 22 None None None None None) = 30)
  ∧ (duration tie_frame = Some (Py.PyFloat 0.125) →
     dur (mkFrame 0 0 32 48 22 None None None None None) = 8)
  ∧ (duration tie_frame = Some (Py.PyFloat 0.375) →
     dur (mkFrame 0 0 32 48 22 None None None None None) = 22)
  ∧ (duration tie_frame = Some (Py.PyFloat 0.001) →
     dur (mkFrame 0 0 32 48 22 None None None None None) = 1)
  ∧ (duration tie_frame = Some (Py.PyFloat 0) →
     dur (mkFrame 0 0 32 48 22 None None None None None) = 1).
Proof.
  split; [split; [vm_compute; reflexivity|]|split; [vm_compute; reflexivity|]].
  - apply (C3_duration_from_seconds ZeroScript "idle" 0 odd_tie_frame).
    + vm_compute. reflexivity.
    + reflexivity.
  - apply (C3_duration_from_seconds SigmaScript "attack" 7 tie_frame).
    + vm_compute. reflexivity.
    + vm_compute. reflexivity.
Defined.

(** The default of 0.066 s is four game frames, and half a second thirty. *)
Example default_duration_is_four : frame_duration plain_frame = Some 4.
Proof. vm_compute. reflexivity. Qed.

Example half_second_is_thirty :
  Py.round (Py.mul60 (Py.PyFloat 0.5)) = Some 30.
Proof. vm_compute. reflexivity. Qed.

(** ** Whole animations *)

Lemma zero_convert_frames_lookup frs cfs :
  Zero.convert_frames frs = Some cfs →
  length cfs = length frs
  ∧ ∀ (k : nat) cf, cfs !! k = Some cf →
      ∃ fr, frs !! k = Some fr ∧ Zero.convert_frame fr = Some cf.
Proof.
  intros H%zero_convert_frames_Forall2. split.
  - symmetry. by eapply Forall2_length.
  - intros k cf Hk.
    destruct (Forall2_lookup_r _ _ _ k cf H Hk) as (fr & Hfr & Hc).
    by exists fr.
Qed.

(** What [convert_anim] returns: the loop flag, the loop start, and frame
    by frame the result of the loop body at the frame's own index. *)
Lemma convert_anim_of_inv c name data anim :
  convert_anim_of c name data = Some anim →
  loop anim = String.eqb (default "once" (wrapMode data)) "loop"
  ∧ loopStart anim
    = (if loop anim && (0 <? default 0 (loopStartFrame data))
       then Some (default 0 (loopStartFrame data)) else None)
  ∧ length (cframes anim) = length (frames data)
  ∧ ∀ (k : nat) cf, cframes anim !! k = Some cf →
      ∃ fr, frames data !! k = Some fr
            ∧ convert_frame_of c name k fr = Some cf.
Proof.
  destruct c; simpl.
  - unfold Zero.convert_anim. intros H.
    destruct (Zero.convert_frames (frames data)) as [cfs|] eqn:Hf; [|done].
    simpl in H. injection H as <-. simpl.
    by destruct (zero_convert_frames_lookup _ _ Hf).
  - unfold Sigma.convert_anim, Sigma.convert_anim_with. intros H.
    destruct (Sigma.convert_frames_with _ _ name 0 (frames data)) as [cfs|] eqn:Hf;
      [|done].
    simpl in H. injection H as <-. simpl.
    by destruct (sigma_convert_frames_lookup _ _ _ _ _ _ Hf).
Qed.

Lemma manual_durations_positive name i d :
  Sigma.override Sigma.MANUAL_DURATIONS name i = Some d → 1 ≤ d.
Proof.
  assert (map_Forall
            (λ (_ : string) (per_frame : gmap nat Z),
               map_Forall (λ (_ : nat) (v : Z), 1 ≤ v) per_frame)
            Sigma.MANUAL_DURATIONS) as Hall.
  { refine (bool_decide_unpack _ _). vm_compute. exact I. }
  unfold Sigma.override.
  destruct (Sigma.MANUAL_DURATIONS !! name) as [per_frame|] eqn:Hn; [|done].
  intros Hi. exact (Hall name per_frame Hn i d Hi).
Qed.

Lemma frame_duration_positive fr d : frame_duration fr = Some d → 1 ≤ d.
Proof. intros (r & _ & ->)%frame_duration_inv. lia. Qed.

Lemma convert_frame_of_dur c name i fr cf :
  convert_frame_of c name i fr = Some cf → 1 ≤ dur cf.
Proof.
  rewrite convert_frame_of_closed. intros H.
  apply frame_closed_form_inv in H
    as (x & y & w & h & d & ox & oy & a & ab & _ & Hd & _ & _ & _ & ->).
  simpl. apply frame_duration_positive in Hd.
  destruct c; simpl; [done|].
  destruct (Sigma.override Sigma.MANUAL_DURATIONS name i) as [v|] eqn:Hv;
    [|done].
  by apply manual_durations_positive in Hv.
Qed.

(** C8: every frame of every animation either script compiles has a
    duration of at least 1, the frames whose duration comes from
    [MANUAL_DURATIONS] included. *)
Theorem C8_duration_at_least_one c name data anim :
  convert_anim_of c name data = Some anim →
  Forall (λ cf, 1 ≤ dur cf) (cframes anim).
Proof.
  intros (_ & _ & _ & Hk)%convert_anim_of_inv.
  apply Forall_lookup. intros k cf Hcf.
  destruct (Hk k cf Hcf) as (fr & _ & Hc).
  by eapply convert_frame_of_dur.
Qed.

Lemma C8_duration_witness :
  Forall (λ cf, 1 ≤ dur cf)
    [mkFrame 0 0 32 48 2 None None None None None;
     mkFrame 8 16 32 48 2 None None None None None;
     mkFrame 0 0 32 48 3 None None None None (Some (mkAtkBox 23 40 30 (-32)));
     mkFrame 8 16 32 48 10 None None None None (Some (mkAtkBox 23 40 30 (-32)))].
Proof.
  apply (C8_duration_at_least_one SigmaScript "attack" four_frame_clip
           (mkAnimation false None _)).
  vm_compute. reflexivity.
Defined.

(** C9, amended: a loop start is recorded only for a looping animation and
    is then the source's [loopStartFrame], which is above 0; the compiled
    animation has as many frames as the source.  The loop start is a valid
    frame index exactly when the source's value is below the number of
    source frames; the scripts do not compare the two. *)
Theorem C9_loop_start_is_the_source_value c name data anim ls :
  convert_anim_of c name data = Some anim →
  loopStart anim = Some ls →
  loop anim = true
  ∧ wrapMode data = Some "loop"
  ∧ loopStartFrame data = Some ls
  ∧ 0 < ls
  ∧ length (cframes anim) = length (frames data).
Proof.
  intros (Hloop & Hls & Hlen & _)%convert_anim_of_inv Hsome.
  rewrite Hsome in Hls.
  destruct (loop anim) eqn:Hl; [|done]. simpl in Hls.
  destruct (0 <? default 0 (loopStartFrame data)) eqn:Hpos; [|done].
  injection Hls as ->. apply Z.ltb_lt in Hpos.
  symmetry in Hloop. apply String.eqb_eq in Hloop.
  split; [done|]. split.
  { destruct (wrapMode data) as [wm|]; simpl in Hloop; by subst. }
  split; [|done].
  destruct (loopStartFrame data) as [v|]; simpl in *; [done|lia].
Qed.

Lemma C9_loop_start_witness :
  loop (mkAnimation true (Some 1)
          [mkFrame 0 0 32 48 4 None None None None None;
           mkFrame 8 16 32 48 1 None None None None None]) = true
  ∧ wrapMode loop_clip = Some "loop"
  ∧ loopStartFrame loop_clip = Some 1
  ∧ 0 < 1
  ∧ length (cframes (mkAnimation true (Some 1)
              [mkFrame 0 0 32 48 4 None None None None None;
               mkFrame 8 16 32 48 1 None None None None None]))
    = length (frames loop_clip).
Proof.
  apply (C9_loop_start_is_the_source_value ZeroScript "run" loop_clip).
  - vm_compute. reflexivity.
  - reflexivity.
Defined.

(** C9 as stated fails: a looping clip of one frame whose
    [loopStartFrame] is 5 compiles, in both scripts, to an animation with
    loopStart 5 and a single frame. *)
Lemma C9_loop_start_counterexample :
  Zero.convert_anim "idle" stray_loop_clip
    = Some (mkAnimation true (Some 5)
              [mkFrame 0 0 32 48 4 None None None None None])
  ∧ Sigma.convert_anim "idle" stray_loop_clip
    = Some (mkAnimation true (Some 5)
              [mkFrame 0 0 32 48 4 None None None None None])
  ∧ (length [mkFrame 0 0 32 48 4 None None None None None] ≤ 5)%nat.
Proof. vm_compute. split; [done|]. split; [done|]. lia. Qed.

(** ** The override tables *)

Lemma sigma_convert_anim_lookup D B name data anim (i : nat) cf :
  Sigma.convert_anim_with D B name data = Some anim →
  cframes anim !! i = Some cf →
  ∃ fr, frames data !! i = Some fr
        ∧ frame_closed_form "" (Sigma.override D name i)
            (Sigma.override B name i) fr = Some cf.
Proof.
  unfold Sigma.convert_anim_with. intros H Hi.
  destruct (Sigma.convert_frames_with D B name 0 (frames data)) as [cfs|] eqn:Hf;
    [|done].
  simpl in H. injection H as <-. simpl in Hi.
  destruct (sigma_convert_frames_lookup _ _ _ _ _ _ Hf) as [_ Hk].
  destruct (Hk i cf Hi) as (fr & Hfr & Hc).
  exists fr. split; [done|]. by rewrite <- sigma_convert_frame_closed.
Qed.

(** C5: for a frame that has an entry in the duration table, that is an
    entry for its index [i] under the name of the animation, the compiled
    duration is the entry itself, and for a frame that has an entry in the
    attack-box table the compiled attack box is the entry, all four fields,
    whatever the hitbox block found or did not find.  The tables are
    arbitrary; the frame is frame [i] of the compiled animation. *)
Theorem C5_overrides_replace (D : gmap string (gmap nat Z))
    (B : gmap string (gmap nat AtkBox)) name data anim (i : nat) cf :
  Sigma.convert_anim_with D B name data = Some anim →
  cframes anim !! i = Some cf →
  (∀ per_frame d,
     D !! name = Some per_frame → per_frame !! i = Some d → dur cf = d)
  ∧ (∀ per_frame b,
       B !! name = Some per_frame → per_frame !! i = Some b →
       atkBox cf = Some b).
Proof.
  intros H Hi.
  destruct (sigma_convert_anim_lookup _ _ _ _ _ _ _ H Hi) as (fr & _ & Hc).
  apply frame_closed_form_inv in Hc
    as (x & y & w & h & d0 & ox & oy & a & ab & _ & _ & _ & _ & _ & ->).
  simpl. unfold Sigma.override. split.
  - intros per_frame d -> Hd. by rewrite Hd.
  - intros per_frame b -> Hb. by rewrite Hb.
Qed.

Lemma C5_overrides_witness :
  ∃ anim cf,
    Sigma.convert_anim "attack" four_frame_clip = Some anim
    ∧ cframes anim !! 3%nat = Some cf
    ∧ frames four_frame_clip !! 3%nat = Some short_frame
    ∧ Sigma.convert_frame_with ∅ ∅ "attack" 3 short_frame
      = Some (mkFrame 8 16 32 48 1 None None None None None)
    ∧ dur cf = 10
    ∧ atkBox cf = Some (mkAtkBox 23 40 30 (-32)).
Proof.
  exists (mkAnimation false None
            [mkFrame 0 0 32 48 2 None None None None None;
             mkFrame 8 16 32 48 2 None None None None None;
             mkFrame 0 0 32 48 3 None None None None
               (Some (mkAtkBox 23 40 30 (-32)));
             mkFrame 8 16 32 48 10 None None None None
               (Some (mkAtkBox 23 40 30 (-32)))]).
  eexists.
  assert (Sigma.convert_anim "attack" four_frame_clip
          = Some (mkAnimation false None
                    [mkFrame 0 0 32 48 2 None None None None None;
                     mkFrame 8 16 32 48 2 None None None None None;
                     mkFrame 0 0 32 48 3 None None None None
                       (Some (mkAtkBox 23 40 30 (-32)));
                     mkFrame 8 16 32 48 10 None None None None
                       (Some (mkAtkBox 23 40 30 (-32)))])) as Ha
    by (vm_compute; reflexivity).
  split; [exact Ha|]. split; [reflexivity|]. split; [reflexivity|].
  split; [vm_compute; reflexivity|].
  destruct (C5_overrides_replace Sigma.MANUAL_DURATIONS Sigma.MANUAL_ATK_BOXES
              "attack" four_frame_clip _ 3%nat _ Ha eq_refl) as [Hd Hb].
  split.
  - apply (Hd (list_to_map [(0%nat, 2); (1%nat, 2); (2%nat, 3); (3%nat, 10)])).
    + vm_compute. reflexivity.
    + vm_compute. reflexivity.
  - apply (Hb (list_to_map [(2%nat, mkAtkBox 23 40 30 (-32));
                            (3%nat, mkAtkBox 23 40 30 (-32))])).
    + vm_compute. reflexivity.
    + vm_compute. reflexivity.
Defined.

Lemma override_remove {A} (table : gmap string (gmap nat A)) name (i k : nat) :
  k ≠ i →
  Sigma.override (remove_override name i table) name k
  = Sigma.override table name k.
Proof.
  intros Hk. unfold Sigma.override, remove_override.
  rewrite lookup_alter_eq.
  destruct (table !! name) as [per_frame|]; [|done].
  simpl. by rewrite lookup_delete_ne.
Qed.

Lemma frame_closed_form_is_Some t d b d' b' fr :
  is_Some (frame_closed_form t d b fr) →
  is_Some (frame_closed_form t d' b' fr).
Proof.
  unfold frame_closed_form.
  destruct (frame_rect fr) as [[[[x y] w] h]|]; [|done].
  destruct (frame_duration fr) as [d0|]; [|done].
  destruct (frame_offset fr) as [[ox oy]|]; [|done].
  destruct (final_anchor t (default [] (POIs fr))) as [a|]; [|done].
  destruct (json_atkBox fr) as [ab|]; [|done].
  simpl. eauto.
Qed.

Lemma sigma_convert_frames_is_Some D B D' B' name i frs :
  is_Some (Sigma.convert_frames_with D B name i frs) →
  is_Some (Sigma.convert_frames_with D' B' name i frs).
Proof.
  revert i. induction frs as [|fr rest IH]; intros i; simpl; [eauto|].
  rewrite !sigma_convert_frame_closed.
  destruct (frame_closed_form "" (Sigma.override D name i) _ fr) as [cf|] eqn:Hc;
    [|by intros [? ?]].
  destruct (frame_closed_form_is_Some "" _ _ (Sigma.override D' name i)
              (Sigma.override B' name i) fr (mk_is_Some _ _ Hc)) as [cf' ->].
  simpl.
  destruct (Sigma.convert_frames_with D B name (S i) rest) as [cfs|] eqn:Hr;
    [|by intros [? ?]].
  destruct (IH (S i) (mk_is_Some _ _ Hr)) as [cfs' ->]. simpl. eauto.
Qed.

Lemma sigma_convert_anim_is_Some D B D' B' name data :
  is_Some (Sigma.convert_anim_with D B name data) →
  is_Some (Sigma.convert_anim_with D' B' name data).
Proof.
  unfold Sigma.convert_anim_with.
  destruct (Sigma.convert_frames_with D B name 0 (frames data)) as [cfs|] eqn:Hf;
    [|by intros [? ?]].
  destruct (sigma_convert_frames_is_Some D B D' B' name 0 (frames data))
    as [cfs' ->]; [by rewrite Hf|].
  simpl. eauto.
Qed.

(** C2, amended: a table entry whose frame index is not below the number
    of source frames is never read: the conversion returns what it returns
    without the entry, and it raises an exception with the tables exactly
    when it raises one with both tables empty. *)
Theorem C2_unmatched_override_is_ignored D B name data (i : nat) :
  (length (frames data) ≤ i)%nat →
  Sigma.convert_anim_with (remove_override name i D) (remove_override name i B)
    name data
  = Sigma.convert_anim_with D B name data
  ∧ (is_Some (Sigma.convert_anim_with D B name data)
     ↔ is_Some (Sigma.convert_anim_with ∅ ∅ name data)).
Proof.
  intros Hlen. split; [|split; apply sigma_convert_anim_is_Some].
  unfold Sigma.convert_anim_with.
  rewrite (sigma_convert_frames_ext (remove_override name i D)
             (remove_override name i B) D B name 0 (frames data)); [done|].
  intros k Hk. simpl. split; apply override_remove; lia.
Qed.

Lemma C2_unmatched_override_witness :
  Sigma.convert_anim_with (remove_override "attack" 3 Sigma.MANUAL_DURATIONS)
    (remove_override "attack" 3 Sigma.MANUAL_ATK_BOXES) "attack" one_frame_clip
  = Sigma.convert_anim_with Sigma.MANUAL_DURATIONS Sigma.MANUAL_ATK_BOXES
      "attack" one_frame_clip
  ∧ (is_Some (Sigma.convert_anim_with Sigma.MANUAL_DURATIONS
                Sigma.MANUAL_ATK_BOXES "attack" one_frame_clip)
     ↔ is_Some (Sigma.convert_anim_with ∅ ∅ "attack" one_frame_clip)).
Proof.
  apply (C2_unmatched_override_is_ignored Sigma.MANUAL_DURATIONS
           Sigma.MANUAL_ATK_BOXES "attack" one_frame_clip 3).
  simpl. lia.
Defined.

(** C2 as stated fails: both tables of the script have an entry for frame
    3 of ["attack"], a clip of one frame has no frame 3, and the
    conversion of that clip under the name ["attack"] returns normally. *)
Lemma C2_fail_fast_counterexample :
  Sigma.override Sigma.MANUAL_DURATIONS "attack" 3 = Some 10
  ∧ Sigma.override Sigma.MANUAL_ATK_BOXES "attack" 3
    = Some (mkAtkBox 23 40 30 (-32))
  ∧ frames one_frame_clip !! 3%nat = None
  ∧ Sigma.convert_anim "attack" one_frame_clip
    = Some (mkAnimation false None
              [mkFrame 0 0 32 48 2 None None None None None]).
Proof. vm_compute. done. Qed.

(** ** The anchor *)

Lemma poi_anchor_inv p x y :
  poi_anchor p = Some (x, y) →
  Py.round (default (Py.PyInt 0) (poi_x p)) = Some x
  ∧ Py.round (default (Py.PyInt 0) (poi_y p)) = Some y.
Proof.
  unfold poi_anchor. rewrite !int_round_round. intros H.
  destruct (Py.round (default (Py.PyInt 0) (poi_x p))) as [x'|]; [|done].
  destruct (Py.round (default (Py.PyInt 0) (poi_y p))) as [y'|]; [|done].
  simpl in H. by injection H as <- <-.
Qed.

(** The pair left in [hx], [hy] belongs to the last POI that matches. *)
Lemma final_anchor_last t pois a :
  final_anchor t pois = Some a →
  match list.last (List.filter (has_tag t) pois) with
  | Some p => ∃ x y, a = Some (x, y) ∧ poi_anchor p = Some (x, y)
  | None => a = None
  end.
Proof.
  unfold final_anchor, anchors.
  destruct (mapM poi_anchor (List.filter (has_tag t) pois)) as [l|] eqn:Hl;
    [|done].
  intros [= <-]. apply mapM_Some_1, Forall2_last in Hl.
  destruct Hl as [p [x y] Hp|]; [|done]. by exists x, y.
Qed.

Lemma frame_closed_form_drop_pois t d b fr :
  frame_closed_form t d b
    (with_POIs (List.filter (has_tag t) (default [] (POIs fr))) fr)
  = frame_closed_form t d b fr.
Proof.
  unfold frame_closed_form, final_anchor, with_POIs, frame_rect,
    frame_duration, frame_offset, json_atkBox. simpl.
  by rewrite anchors_filter.
Qed.

(** C1, amended: the compiled anchor is the rounded position of the LAST
    POI of the list whose tag equals the primary tag of the script (every
    matching POI overwrites [hx] and [hy], so earlier matches are the ones
    that are lost); POIs with any other tag, ["h"] included, can be dropped
    from the list without changing the result; and without a matching POI
    the frame has neither [hx] nor [hy]. *)
Theorem C1_anchor_is_last_match c name i fr cf :
  convert_frame_of c name i fr = Some cf →
  match list.last (List.filter (has_tag (primary_tag c)) (default [] (POIs fr)))
  with
  | Some p => rounded_anchor p cf
  | None => hx cf = None ∧ hy cf = None
  end
  ∧ convert_frame_of c name i
      (with_POIs (List.filter (has_tag (primary_tag c)) (default [] (POIs fr)))
         fr)
    = convert_frame_of c name i fr.
Proof.
  intros H. split.
  - rewrite convert_frame_of_closed in H.
    apply frame_closed_form_inv in H
      as (x & y & w & h & d & ox & oy & a & ab & _ & _ & _ & Ha & _ & ->).
    apply final_anchor_last in Ha.
    destruct (list.last _) as [p|].
    + destruct Ha as (px & py & -> & Hp).
      apply poi_anchor_inv in Hp as [Hx Hy]. by exists px, py.
    + by subst a.
  - rewrite !convert_frame_of_closed. apply frame_closed_form_drop_pois.
Qed.

Lemma C1_anchor_witness :
  match list.last (List.filter (has_tag (primary_tag ZeroScript))
                     (default [] (POIs mixed_poi_frame)))
  with
  | Some p => rounded_anchor p
                (mkFrame 0 0 32 48 4 None None (Some 4) (Some 4) None)
  | None => hx (mkFrame 0 0 32 48 4 None None (Some 4) (Some 4) None) = None
            ∧ hy (mkFrame 0 0 32 48 4 None None (Some 4) (Some 4) None) = None
  end
  ∧ convert_frame_of ZeroScript "shoot" 0
      (with_POIs (List.filter (has_tag (primary_tag ZeroScript))
                    (default [] (POIs mixed_poi_frame))) mixed_poi_frame)
    = convert_frame_of ZeroScript "shoot" 0 mixed_poi_frame.
Proof.
  apply (C1_anchor_is_last_match ZeroScript "shoot" 0 mixed_poi_frame).
  vm_compute. reflexivity.
Defined.

(** C1 as stated fails: with two POIs tagged ["b"], at (1,2) and then at
    (3,4), the first match is the one at (1,2), and the compiled anchor is
    (3,4).  The same holds in the other script for the empty tag. *)
Lemma C1_first_match_counterexample :
  List.find (has_tag "b") (default [] (POIs two_buster_frame))
    = Some (tagged "b" (Py.PyInt 1) (Py.PyInt 2))
  ∧ poi_anchor (tagged "b" (Py.PyInt 1) (Py.PyInt 2)) = Some (1, 2)
  ∧ Zero.convert_frame two_buster_frame
    = Some (mkFrame 0 0 32 48 4 None None (Some 3) (Some 4) None)
  ∧ Sigma.convert_frame "shoot" 0
      (with_POIs [tagged "" (Py.PyInt 1) (Py.PyInt 2);
                  tagged "" (Py.PyInt 3) (Py.PyInt 4)] plain_frame)
    = Some (mkFrame 0 0 32 48 4 None None (Some 3) (Some 4) None).
Proof. vm_compute. done. Qed.

(** ** The attack box *)

Lemma hitbox_atkBox_inv hb b :
  hitbox_atkBox hb = Some b → rounded_box hb b.
Proof.
  unfold hitbox_atkBox, rounded_box. rewrite !int_round_round. intros H.
  destruct (Py.round (default (Py.PyInt 0) (width hb))) as [w|]; [|done].
  destruct (Py.round (default (Py.PyInt 0) (height hb))) as [h|]; [|done].
  destruct (Py.round (default (Py.PyInt 0)
              (off_x (default empty_offset (hb_offset hb))))) as [x|]; [|done].
  destruct (Py.round (default (Py.PyInt 0)
              (off_y (default empty_offset (hb_offset hb))))) as [y|]; [|done].
  simpl in H. by injection H as <-.
Qed.

Lemma filter_head_find {A} (f : A → bool) (l : list A) :
  List.find f l = head (List.filter f l).
Proof.
  induction l as [|x l IH]; [done|]. simpl. by destruct (f x).
Qed.

Lemma filter_filter {A} (f : A → bool) (l : list A) :
  List.filter f (List.filter f l) = List.filter f l.
Proof.
  induction l as [|x l IH]; [done|]. simpl.
  destruct (f x) eqn:Hx; [|done]. simpl. by rewrite Hx, IH.
Qed.

Lemma json_atkBox_find fr ab :
  json_atkBox fr = Some ab →
  match List.find is_active (default [] (hitboxes fr)) with
  | Some hb => ∃ b, ab = Some b ∧ rounded_box hb b
  | None => ab = None
  end.
Proof.
  unfold json_atkBox. rewrite filter_head_find.
  destruct (List.filter is_active (default [] (hitboxes fr))) as [|hb l]; simpl.
  - by intros [= <-].
  - destruct (hitbox_atkBox hb) as [b|] eqn:Hb; [|done].
    intros [= <-]. exists b. split; [done|]. by apply hitbox_atkBox_inv.
Qed.

Lemma frame_closed_form_drop_hitboxes t d b fr :
  frame_closed_form t d b
    (with_hitboxes (List.filter is_active (default [] (hitboxes fr))) fr)
  = frame_closed_form t d b fr.
Proof.
  unfold frame_closed_form, final_anchor, with_hitboxes, frame_rect,
    frame_duration, frame_offset, json_atkBox. simpl.
  by rewrite filter_filter.
Qed.

Lemma convert_frame_of_atkBox c name i fr cf :
  convert_frame_of c name i fr = Some cf →
  atkBox_override c name i = None →
  match List.find is_active (default [] (hitboxes fr)) with
  | Some hb => ∃ b, atkBox cf = Some b ∧ rounded_box hb b
  | None => atkBox cf = None
  end.
Proof.
  intros H Hov. rewrite convert_frame_of_closed, Hov in H.
  apply frame_closed_form_inv in H
    as (x & y & w & h & d & ox & oy & a & ab & _ & _ & _ & _ & Hab & ->).
  by apply json_atkBox_find in Hab.
Qed.

(** C7: without an attack-box override, the compiled attack box holds the
    rounded width, height and offset of the first hitbox, in source order,
    whose flag reads as 0; the frame has no attack box when there is no
    such hitbox; and the hitboxes whose flag is not 0 can be dropped from
    the list without changing the result of the conversion. *)
Theorem C7_attack_box_is_first_damage_hitbox c name i fr cf :
  convert_frame_of c name i fr = Some cf →
  atkBox_override c name i = None →
  match List.find is_active (default [] (hitboxes fr)) with
  | Some hb => ∃ b, atkBox cf = Some b ∧ rounded_box hb b
  | None => atkBox cf = None
  end
  ∧ convert_frame_of c name i
      (with_hitboxes (List.filter is_active (default [] (hitboxes fr))) fr)
    = convert_frame_of c name i fr.
Proof.
  intros H Hov. split.
  - by apply (convert_frame_of_atkBox c name i).
  - rewrite !convert_frame_of_closed. apply frame_closed_form_drop_hitboxes.
Qed.

Lemma C7_attack_box_witness :
  match List.find is_active (default [] (hitboxes flagged_frame)) with
  | Some hb =>
      ∃ b, atkBox (mkFrame 0 0 32 48 2 None None None None
                     (Some (mkAtkBox 20 30 4 (-12)))) = Some b
           ∧ rounded_box hb b
  | None => atkBox (mkFrame 0 0 32 48 2 None None None None
                      (Some (mkAtkBox 20 30 4 (-12)))) = None
  end
  ∧ convert_frame_of SigmaScript "attack" 0
      (with_hitboxes
         (List.filter is_active (default [] (hitboxes flagged_frame)))
         flagged_frame)
    = convert_frame_of SigmaScript "attack" 0 flagged_frame.
Proof.
  apply (C7_attack_box_is_first_damage_hitbox SigmaScript "attack" 0
           flagged_frame).
  - vm_compute. reflexivity.
  - vm_compute. reflexivity.
Defined.

Lemma filter_none {A} (f : A → bool) (l : list A) :
  Forall (λ x, f x = false) l → List.filter f l = [].
Proof.
  induction 1 as [|x l Hx _ IH]; [done|]. simpl. by rewrite Hx.
Qed.

(** C10: a hitbox without a [flag] key counts as a damage hitbox: when
    every hitbox before it has a flag other than 0 and no attack-box
    override applies, it is the one compiled into the attack box. *)
Theorem C10_missing_flag_is_damage c name i fr cf pre hb post :
  convert_frame_of c name i fr = Some cf →
  atkBox_override c name i = None →
  hitboxes fr = Some (pre ++ hb :: post) →
  Forall (λ h, is_active h = false) pre →
  flag hb = None →
  is_active hb = true
  ∧ ∃ b, atkBox cf = Some b ∧ rounded_box hb b.
Proof.
  intros H Hov Hhb Hpre Hflag.
  assert (is_active hb = true) as Hact.
  { unfold is_active. by rewrite Hflag. }
  split; [done|].
  pose proof (convert_frame_of_atkBox c name i fr cf H Hov) as Hfind.
  revert Hfind. rewrite Hhb. simpl.
  rewrite filter_head_find, List.filter_app, (filter_none _ _ Hpre).
  simpl. by rewrite Hact.
Qed.

Lemma C10_missing_flag_witness :
  is_active unflagged_box = true
  ∧ ∃ b, atkBox (mkFrame 0 0 32 48 4 None None None None
                   (Some (mkAtkBox 14 23 3 (-7)))) = Some b
         ∧ rounded_box unflagged_box b.
Proof.
  apply (C10_missing_flag_is_damage ZeroScript "attack" 0 unflagged_frame
           (mkFrame 0 0 32 48 4 None None None None
              (Some (mkAtkBox 14 23 3 (-7))))
           [box (Some (Py.PyInt 1)) (Py.PyInt 9) (Py.PyInt 9) (Py.PyInt 0)
              (Py.PyInt 0)]
           unflagged_box
           [box (Some (Py.PyInt 0)) (Py.PyInt 1) (Py.PyInt 1) (Py.PyInt 1)
              (Py.PyInt 1)]).
  - vm_compute. reflexivity.
  - reflexivity.
  - reflexivity.
  - repeat constructor.
  - reflexivity.
Defined.

(** ** The lookup functions of the generated modules *)

Lemma shoot_map_truthy state shootState :
  Zero.ZERO_SHOOT_ANIM_MAP !! state = Some shootState →
  Zero.js_truthy shootState = true.
Proof.
  assert (map_Forall (λ (_ : string) (s : string), Zero.js_truthy s = true)
            Zero.ZERO_SHOOT_ANIM_MAP) as Hall.
  { refine (bool_decide_unpack _ _). vm_compute. exact I. }
  apply Hall.
Qed.

(** *** Reads through the prototype chain *)

Lemma get_own {A} (obj : gmap string A) key a :
  obj !! key = Some a → JS.get obj key = Some (JS.Own a).
Proof. unfold JS.get. by intros ->. Qed.

Lemma get_ordinary {A} (obj : gmap string A) key :
  key ∉ JS.prototype_members → JS.get obj key = JS.Own <$> obj !! key.
Proof.
  intros Hk. unfold JS.get. destruct (obj !! key); [done|].
  by rewrite bool_decide_eq_false_2.
Qed.

Lemma get_inherited {A} (obj : gmap string A) key :
  key ∈ JS.prototype_members → obj !! key = None →
  JS.get obj key = Some (JS.Inherited key).
Proof.
  intros Hk Hn. unfold JS.get. rewrite Hn. by rewrite bool_decide_eq_true_2.
Qed.

Lemma get_Own_inv {A} (obj : gmap string A) key a :
  JS.get obj key = Some (JS.Own a) → obj !! key = Some a.
Proof.
  unfold JS.get. destruct (obj !! key); [congruence|].
  by destruct (bool_decide _).
Qed.

Lemma idle_ordinary : "idle" ∉ JS.prototype_members.
Proof. refine (bool_decide_unpack _ _). vm_compute. exact I. Qed.

Lemma shoot_targets_ordinary state s :
  Zero.ZERO_SHOOT_ANIM_MAP !! state = Some s → s ∉ JS.prototype_members.
Proof.
  assert (map_Forall (λ (_ : string) (t : string), t ∉ JS.prototype_members)
            Zero.ZERO_SHOOT_ANIM_MAP) as Hall.
  { refine (bool_decide_unpack _ _). vm_compute. exact I. }
  apply Hall.
Qed.

Lemma shoot_map_no_member state :
  state ∈ JS.prototype_members → Zero.ZERO_SHOOT_ANIM_MAP !! state = None.
Proof.
  assert (Forall (λ k : string, Zero.ZERO_SHOOT_ANIM_MAP !! k = None)
            JS.prototype_members) as Hall.
  { refine (bool_decide_unpack _ _). vm_compute. exact I. }
  rewrite list.Forall_forall in Hall. apply Hall.
Qed.

Lemma last_line_ordinary (table : gmap string CompiledAnimation) state :
  state ∉ JS.prototype_members →
  match JS.get table state with
  | Some a => Some a
  | None => JS.get table "idle"
  end
  = JS.Own <$> match table !! state with
               | Some a => Some a
               | None => table !! "idle"
               end.
Proof.
  intros Hs.
  rewrite (get_ordinary table state Hs), (get_ordinary table "idle" idle_ordinary).
  by destruct (table !! state).
Qed.

Lemma last_line_inherited (table : gmap string CompiledAnimation) state :
  state ∈ JS.prototype_members → table !! state = None →
  match JS.get table state with
  | Some a => Some a
  | None => JS.get table "idle"
  end = Some (JS.Inherited state).
Proof. intros Hs Hn. by rewrite (get_inherited table state Hs Hn). Qed.

Lemma getZeroAnim_ordinary member_key table state firing :
  state ∉ JS.prototype_members →
  Zero.getZeroAnim member_key table state firing
  = JS.Own <$> resolve_spec (Some Zero.ZERO_SHOOT_ANIM_MAP) table state firing.
Proof.
  intros Hs. unfold Zero.getZeroAnim, resolve_spec.
  rewrite (last_line_ordinary table state Hs).
  destruct firing; [|done].
  rewrite (get_ordinary Zero.ZERO_SHOOT_ANIM_MAP state Hs).
  destruct (Zero.ZERO_SHOOT_ANIM_MAP !! state) as [s|] eqn:E; simpl; [|done].
  rewrite (shoot_map_truthy _ _ E).
  rewrite (get_ordinary table s (shoot_targets_ordinary _ _ E)).
  by destruct (table !! s).
Qed.

Lemma getSigmaAnim_ordinary table state firing :
  state ∉ JS.prototype_members →
  Sigma.getSigmaAnim table state
  = JS.Own <$> resolve_spec None table state firing.
Proof.
  intros Hs. unfold Sigma.getSigmaAnim, resolve_spec.
  apply (last_line_ordinary table state Hs).
Qed.

Lemma lookup_of_ordinary c member_key table state firing :
  state ∉ JS.prototype_members →
  lookup_of c member_key table state firing
  = JS.Own <$> resolve_spec (overlay_of c) table state firing.
Proof.
  intros Hs. destruct c; simpl.
  - by apply getZeroAnim_ordinary.
  - by apply (getSigmaAnim_ordinary table state firing).
Qed.

Lemma getZeroAnim_inherited member_key table state :
  state ∈ JS.prototype_members → table !! state = None →
  Zero.getZeroAnim member_key table state false = Some (JS.Inherited state)
  ∧ (JS.get table (member_key state) = None →
     Zero.getZeroAnim member_key table state true
     = Some (JS.Inherited state)).
Proof.
  intros Hs Hn. unfold Zero.getZeroAnim.
  rewrite (last_line_inherited table state Hs Hn). split; [done|].
  rewrite (get_inherited _ state Hs (shoot_map_no_member state Hs)). simpl.
  by intros ->.
Qed.

(** C6: a state that is not the name of a member of [Object.prototype]
    resolves as the specification words it: [getZeroAnim] is that lookup
    with the shoot overlay map of Zero and [getSigmaAnim] that lookup for a
    character without an overlay map, so ["run"] while firing is the entry
    ["run_shoot"] when the table has it.  A state the table does not have
    and that names a member of [Object.prototype], such as
    ["constructor"], does not resolve to the entry ["idle"]: both functions
    return the inherited member, also over a table that has ["idle"]. *)
Theorem C6_inherited_member_is_not_idle (member_key : string → string)
    (table : gmap string CompiledAnimation) (state : string) (firing : bool) :
  (state ∉ JS.prototype_members →
   Zero.getZeroAnim member_key table state firing
   = JS.Own <$> resolve_spec (Some Zero.ZERO_SHOOT_ANIM_MAP) table state firing
   ∧ Sigma.getSigmaAnim table state
     = JS.Own <$> resolve_spec None table state firing)
  ∧ Zero.getZeroAnim member_key table "run" true
    = match table !! "run_shoot" with
      | Some a => Some (JS.Own a)
      | None => Zero.getZeroAnim member_key table "run" false
      end
  ∧ (state ∈ JS.prototype_members → table !! state = None →
     Sigma.getSigmaAnim table state = Some (JS.Inherited state)
     ∧ Zero.getZeroAnim member_key table state false
       = Some (JS.Inherited state)
     ∧ (JS.get table (member_key state) = None →
        Zero.getZeroAnim member_key table state true
        = Some (JS.Inherited state)))
  ∧ is_Some (zero_files_table !! "idle")
  ∧ resolve_spec None zero_files_table "constructor" false
    = zero_files_table !! "idle"
  ∧ Sigma.getSigmaAnim zero_files_table "constructor"
    = Some (JS.Inherited "constructor")
  ∧ Zero.getZeroAnim member_key zero_files_table "constructor" false
    = Some (JS.Inherited "constructor")
  ∧ Sigma.getSigmaAnim zero_files_table "no_such_state"
    = JS.Own <$> zero_files_table !! "idle".
Proof.
  split; [|split; [|split; [|split; [|split; [|split; [|split]]]]]].
  - intros Hs. split.
    + by apply getZeroAnim_ordinary.
    + by apply getSigmaAnim_ordinary.
  - unfold Zero.getZeroAnim.
    assert (JS.get Zero.ZERO_SHOOT_ANIM_MAP "run" = Some (JS.Own "run_shoot"))
      as -> by (vm_compute; reflexivity).
    simpl. destruct (table !! "run_shoot") as [a|] eqn:E.
    + by rewrite (get_own table "run_shoot" a E).
    + assert ("run_shoot" ∉ JS.prototype_members) as Hr.
      { refine (bool_decide_unpack _ _). vm_compute. exact I. }
      by rewrite (get_ordinary table "run_shoot" Hr), E.
  - intros Hs Hn. split.
    + apply (last_line_inherited table state Hs Hn).
    + apply (getZeroAnim_inherited member_key table state Hs Hn).
  - vm_compute. eauto.
  - vm_compute. reflexivity.
  - vm_compute. reflexivity.
  - vm_compute. reflexivity.
  - vm_compute. reflexivity.
Qed.

(** * Further properties of the converters *)

(** ** Rendering offset and anchor keys *)

Lemma frame_offset_inv fr vx vy :
  frame_offset fr = Some (vx, vy) →
  Py.round (default (Py.PyInt 0) (off_x (default empty_offset (offset fr))))
    = Some vx
  ∧ Py.round (default (Py.PyInt 0) (off_y (default empty_offset (offset fr))))
    = Some vy.
Proof.
  unfold frame_offset. rewrite !int_round_round. intros H.
  destruct (Py.round (default (Py.PyInt 0)
              (off_x (default empty_offset (offset fr))))) as [a|]; [|done].
  destruct (Py.round (default (Py.PyInt 0)
              (off_y (default empty_offset (offset fr))))) as [b|]; [|done].
  simpl in H. by injection H as <- <-.
Qed.

(** X1: each axis of the rendering offset is rounded on its own; the key
    [ox] (resp. [oy]) is present exactly when the rounded value is not 0
    and then holds it, so a compiled frame never carries [ox] or [oy]
    equal to 0.  A frame without an [offset] key reads as offset (0, 0). *)
Theorem X1_offset_keys c name i fr cf :
  convert_frame_of c name i fr = Some cf →
  ∃ rx ry,
    Py.round (default (Py.PyInt 0) (off_x (default empty_offset (offset fr))))
      = Some rx
    ∧ Py.round (default (Py.PyInt 0) (off_y (default empty_offset (offset fr))))
      = Some ry
    ∧ ox cf = (if rx =? 0 then None else Some rx)
    ∧ oy cf = (if ry =? 0 then None else Some ry)
    ∧ ox cf ≠ Some 0
    ∧ oy cf ≠ Some 0.
Proof.
  rewrite convert_frame_of_closed. intros H.
  apply frame_closed_form_inv in H
    as (x & y & w & h & d & vx & vy & a & ab & _ & _ & Ho & _ & _ & ->).
  apply frame_offset_inv in Ho as [Hx Hy].
  exists vx, vy. simpl. unfold nonzero. repeat split; try done.
  - destruct (vx =? 0) eqn:E; [done|]. apply Z.eqb_neq in E. congruence.
  - destruct (vy =? 0) eqn:E; [done|]. apply Z.eqb_neq in E. congruence.
Qed.

Lemma X1_offset_keys_witness :
  ∃ rx ry,
    Py.round (default (Py.PyInt 0)
                (off_x (default empty_offset (offset offset_frame)))) = Some rx
    ∧ Py.round (default (Py.PyInt 0)
                  (off_y (default empty_offset (offset offset_frame))))
      = Some ry
    ∧ ox (mkFrame 0 0 32 48 4 None (Some (-2)) None None None)
      = (if rx =? 0 then None else Some rx)
    ∧ oy (mkFrame 0 0 32 48 4 None (Some (-2)) None None None)
      = (if ry =? 0 then None else Some ry)
    ∧ ox (mkFrame 0 0 32 48 4 None (Some (-2)) None None None) ≠ Some 0
    ∧ oy (mkFrame 0 0 32 48 4 None (Some (-2)) None None None) ≠ Some 0.
Proof.
  apply (X1_offset_keys ZeroScript "idle" 0 offset_frame).
  vm_compute. reflexivity.
Defined.

(** X2: [hx] and [hy] are set together: a compiled frame has both keys or
    neither. *)
Theorem X2_anchor_keys_together c name i fr cf :
  convert_frame_of c name i fr = Some cf →
  (hx cf = None ↔ hy cf = None).
Proof.
  rewrite convert_frame_of_closed. intros H.
  apply frame_closed_form_inv in H
    as (x & y & w & h & d & vx & vy & a & ab & _ & _ & _ & _ & _ & ->).
  simpl. by destruct a.
Qed.

Lemma X2_anchor_keys_witness :
  hx (mkFrame 0 0 32 48 4 None None (Some 3) (Some 4) None) = None
  ↔ hy (mkFrame 0 0 32 48 4 None None (Some 3) (Some 4) None) = None.
Proof.
  apply (X2_anchor_keys_together ZeroScript "shoot" 0 two_buster_frame).
  vm_compute. reflexivity.
Defined.

(** ** Frames of an animation *)

(** X3: the compiled animation has one frame per source frame, in source
    order, and frame [k] is the loop body run on source frame [k] with the
    index [k]; an animation without frames compiles to one without
    frames. *)
Theorem X3_frames_aligned c name data anim :
  convert_anim_of c name data = Some anim →
  length (cframes anim) = length (frames data)
  ∧ ∀ k : nat,
      cframes anim !! k = frames data !! k ≫= convert_frame_of c name k.
Proof.
  intros (_ & _ & Hlen & Hk)%convert_anim_of_inv. split; [done|].
  intros k. destruct (cframes anim !! k) as [cf|] eqn:Hcf.
  - destruct (Hk k cf Hcf) as (fr & -> & Hc). by simpl.
  - apply lookup_ge_None in Hcf. rewrite Hlen in Hcf.
    apply lookup_ge_None in Hcf. by rewrite Hcf.
Qed.

Lemma X3_frames_aligned_witness :
  length (cframes (mkAnimation true (Some 1)
            [mkFrame 0 0 32 48 4 None None None None None;
             mkFrame 8 16 32 48 1 None None None None None]))
  = length (frames loop_clip)
  ∧ ∀ k : nat,
      cframes (mkAnimation true (Some 1)
                 [mkFrame 0 0 32 48 4 None None None None None;
                  mkFrame 8 16 32 48 1 None None None None None]) !! k
      = frames loop_clip !! k ≫= convert_frame_of SigmaScript "run" k.
Proof.
  apply (X3_frames_aligned SigmaScript "run" loop_clip).
  vm_compute. reflexivity.
Defined.

Lemma zero_convert_frames_total frs :
  (∀ (k : nat) fr, frs !! k = Some fr → is_Some (Zero.convert_frame fr)) →
  is_Some (Zero.convert_frames frs).
Proof.
  induction frs as [|fr rest IH]; intros H; simpl; [eauto|].
  destruct (H 0%nat fr eq_refl) as [cf ->]. simpl.
  destruct IH as [cfs ->]; [|simpl; eauto].
  intros k fr' Hk. by apply (H (S k)).
Qed.

Lemma sigma_convert_frames_total D B name i frs :
  (∀ (k : nat) fr, frs !! k = Some fr →
     is_Some (Sigma.convert_frame_with D B name (i + k) fr)) →
  is_Some (Sigma.convert_frames_with D B name i frs).
Proof.
  revert i. induction frs as [|fr rest IH]; intros i H; simpl; [eauto|].
  destruct (H 0%nat fr eq_refl) as [cf Hcf].
  replace (i + 0)%nat with i in Hcf by lia. rewrite Hcf. simpl.
  destruct (IH (S i)) as [cfs ->]; [|simpl; eauto].
  intros k fr' Hk. replace (S i + k)%nat with (i + S k)%nat by lia.
  by apply H.
Qed.

(** X4: on an animation of the schema, [convert_anim] returns normally
    exactly when the loop body does on every frame, each at its own index:
    one frame that raises makes the whole animation fail, and for a
    document that has its [frames] and an integer [loopStartFrame] nothing
    else does. *)
Theorem X4_animation_fails_with_a_frame c name data :
  is_Some (convert_anim_of c name data)
  ↔ ∀ (k : nat) fr, frames data !! k = Some fr →
      is_Some (convert_frame_of c name k fr).
Proof.
  split.
  - intros [anim Ha] k fr Hfr.
    apply convert_anim_of_inv in Ha as (_ & _ & Hlen & Hk).
    destruct (cframes anim !! k) as [cf|] eqn:Hcf.
    + destruct (Hk k cf Hcf) as (fr' & Hfr' & Hc).
      rewrite Hfr in Hfr'. injection Hfr' as <-. eauto.
    + apply lookup_ge_None in Hcf. rewrite Hlen in Hcf.
      apply lookup_ge_None in Hcf. congruence.
  - intros H. destruct c; simpl in *.
    + unfold Zero.convert_anim.
      destruct (zero_convert_frames_total _ H) as [cfs ->]. simpl. eauto.
    + unfold Sigma.convert_anim, Sigma.convert_anim_with.
      destruct (sigma_convert_frames_total Sigma.MANUAL_DURATIONS
                  Sigma.MANUAL_ATK_BOXES name 0 (frames data) H) as [cfs ->].
      simpl. eauto.
Qed.

(** ** The override tables as a pass of their own *)

Lemma frame_closed_form_overrides t d b fr :
  frame_closed_form t d b fr
  = apply_overrides d b <$> frame_closed_form t None None fr.
Proof.
  unfold frame_closed_form.
  destruct (frame_rect fr) as [[[[x y] w] h]|]; [|done].
  destruct (frame_duration fr) as [d0|]; [|done].
  destruct (frame_offset fr) as [[vx vy]|]; [|done].
  destruct (final_anchor t (default [] (POIs fr))) as [a|]; [|done].
  by destruct (json_atkBox fr) as [ab|].
Qed.

Lemma override_empty {A} name i :
  Sigma.override (∅ : gmap string (gmap nat A)) name i = None.
Proof. unfold Sigma.override. by rewrite lookup_empty. Qed.

(** X5: whatever the two tables hold, the loop body of the Sigma script
    returns the frame it returns with both tables empty, with [dur]
    replaced by the entry the duration table has for this index under this
    name (if any) and [atkBox] by the entry of the attack-box table (if
    any); no other key depends on the tables, and the tables neither cause
    nor prevent an exception.  With the tables of the script, frame 3 of
    ["attack"] gets duration 10 and the sword box where it has duration 1
    and no box without them. *)
Theorem X5_overrides_are_a_final_pass (D : gmap string (gmap nat Z))
    (B : gmap string (gmap nat AtkBox)) name (i : nat) fr :
  Sigma.convert_frame_with D B name i fr
  = apply_overrides
      (match D !! name with
       | Some per_frame => per_frame !! i
       | None => None
       end)
      (match B !! name with
       | Some per_frame => per_frame !! i
       | None => None
       end)
      <$> Sigma.convert_frame_with ∅ ∅ name i fr
  ∧ Sigma.convert_frame_with ∅ ∅ "attack" 3 short_frame
    = Some (mkFrame 8 16 32 48 1 None None None None None)
  ∧ Sigma.convert_frame "attack" 3 short_frame
    = Some (mkFrame 8 16 32 48 10 None None None None
              (Some (mkAtkBox 23 40 30 (-32)))).
Proof.
  split; [|split; vm_compute; reflexivity].
  rewrite !sigma_convert_frame_closed.
  rewrite !override_empty.
  apply frame_closed_form_overrides.
Qed.

Lemma manual_tables_miss name :
  name ≠ "attack" → name ≠ "attack_air" → name ≠ "attack_dash" →
  name ≠ "wall_slide_attack" →
  Sigma.MANUAL_DURATIONS !! name = None ∧ Sigma.MANUAL_ATK_BOXES !! name = None.
Proof.
  intros H1 H2 H3 H4.
  split; apply not_elem_of_list_to_map_1; simpl;
    rewrite !not_elem_of_cons; repeat split; try done; apply not_elem_of_nil.
Qed.

(** X6: only the clips named [attack], [attack_air], [attack_dash] and
    [wall_slide_attack] are touched by the manual tables of the Sigma
    script: under any other name [convert_anim] returns what it returns
    with both tables empty. *)
Theorem X6_only_attack_clips_are_overridden name data :
  name ≠ "attack" → name ≠ "attack_air" → name ≠ "attack_dash" →
  name ≠ "wall_slide_attack" →
  Sigma.convert_anim name data = Sigma.convert_anim_with ∅ ∅ name data.
Proof.
  intros H1 H2 H3 H4.
  destruct (manual_tables_miss name H1 H2 H3 H4) as [Hd Hb].
  unfold Sigma.convert_anim, Sigma.convert_anim_with.
  rewrite (sigma_convert_frames_ext Sigma.MANUAL_DURATIONS
             Sigma.MANUAL_ATK_BOXES ∅ ∅ name 0 (frames data)); [done|].
  intros k _. rewrite !override_empty. unfold Sigma.override.
  by rewrite Hd, Hb.
Qed.

Lemma X6_only_attack_clips_witness :
  Sigma.convert_anim "wall_slide" four_frame_clip
  = Sigma.convert_anim_with ∅ ∅ "wall_slide" four_frame_clip.
Proof.
  apply (X6_only_attack_clips_are_overridden "wall_slide" four_frame_clip);
    discriminate.
Defined.

(** ** Loop flag, loop start and their text *)

(** X7: the loop flag is set exactly for the wrap mode ["loop"] (a
    missing [wrapMode] reads as ["once"]); a loop start is recorded
    exactly when the clip loops and its [loopStartFrame] is above 0; and
    the text [main] writes for it is empty exactly when none is recorded,
    so the truthiness test of [main] never drops a recorded loop start. *)
Theorem X7_loop_flag_and_start c name data anim :
  convert_anim_of c name data = Some anim →
  (loop anim = true ↔ wrapMode data = Some "loop")
  ∧ (is_Some (loopStart anim)
     ↔ wrapMode data = Some "loop"
       ∧ ∃ v, loopStartFrame data = Some v ∧ 0 < v)
  ∧ loop_start_str anim
    = match loopStart anim with
      | Some v => ", loopStart: " +:+ py_str v
      | None => ""
      end.
Proof.
  intros (Hloop & Hls & _ & _)%convert_anim_of_inv.
  assert (loop anim = true ↔ wrapMode data = Some "loop") as Hflag.
  { rewrite Hloop. rewrite String.eqb_eq.
    destruct (wrapMode data) as [wm|]; simpl; split; congruence. }
  split; [done|]. split.
  - rewrite Hls. split.
    + intros [v Hv]. destruct (loop anim); [|done]. simpl in Hv.
      destruct (0 <? default 0 (loopStartFrame data)) eqn:Hpos; [|done].
      apply Z.ltb_lt in Hpos. split; [by apply Hflag|].
      destruct (loopStartFrame data) as [w|]; simpl in Hpos; [eauto|lia].
    + intros [Hw (v & Hv & Hpos)]. apply Hflag in Hw. rewrite Hw, Hv. simpl.
      apply Z.ltb_lt in Hpos. rewrite Hpos. eauto.
  - unfold loop_start_str. rewrite Hls.
    destruct (loop anim && (0 <? default 0 (loopStartFrame data))) eqn:E;
      [|done].
    apply andb_true_iff in E as [_ E]. apply Z.ltb_lt in E.
    destruct (default 0 (loopStartFrame data) =? 0) eqn:E0; [|done].
    apply Z.eqb_eq in E0. lia.
Qed.

Lemma X7_loop_flag_witness :
  (loop (mkAnimation true (Some 5)
           [mkFrame 0 0 32 48 4 None None None None None]) = true
   ↔ wrapMode stray_loop_clip = Some "loop")
  ∧ (is_Some (loopStart (mkAnimation true (Some 5)
                [mkFrame 0 0 32 48 4 None None None None None]))
     ↔ wrapMode stray_loop_clip = Some "loop"
       ∧ ∃ v, loopStartFrame stray_loop_clip = Some v ∧ 0 < v)
  ∧ loop_start_str (mkAnimation true (Some 5)
                      [mkFrame 0 0 32 48 4 None None None None None])
    = match loopStart (mkAnimation true (Some 5)
                         [mkFrame 0 0 32 48 4 None None None None None]) with
      | Some v => ", loopStart: " +:+ py_str v
      | None => ""
      end.
Proof.
  apply (X7_loop_flag_and_start ZeroScript "idle" stray_loop_clip).
  vm_compute. reflexivity.
Defined.

(** ** The loop of [main] and the generated table *)

Section MainLoopFacts.

Variable conv : string → AnimationSource → option CompiledAnimation.
Variable files : gmap string AnimationSource.

Lemma main_loop_entries anims lines :
  main_loop conv files anims lines
  = match table_entries conv files anims with
    | Some entries =>
        Some (lines ++ concat ((λ e, entry_lines e.1 e.2) <$> entries))
    | None => None
    end.
Proof.
  revert lines. induction anims as [|[name filename] rest IH]; intros lines;
    simpl.
  - by rewrite app_nil_r.
  - destruct (files !! filename) as [data|]; [|by apply IH].
    destruct (conv name data) as [anim|]; [|done]. simpl. rewrite IH.
    destruct (table_entries conv files rest) as [entries|]; [|done].
    simpl. by rewrite <- app_assoc.
Qed.

Lemma table_entries_elem anims entries name anim :
  table_entries conv files anims = Some entries →
  (name, anim) ∈ entries
  ↔ ∃ filename data,
      (name, filename) ∈ anims ∧ files !! filename = Some data
      ∧ conv name data = Some anim.
Proof.
  revert entries. induction anims as [|[n f] rest IH]; intros entries H;
    simpl in H.
  - injection H as <-. split.
    + by intros ?%elem_of_nil.
    + by intros (? & ? & ?%elem_of_nil & _).
  - destruct (files !! f) as [data|] eqn:Hf.
    + destruct (conv n data) as [a|] eqn:Ha; [|done].
      destruct (table_entries conv files rest) as [es|]; [|done].
      simpl in H. injection H as <-.
      rewrite elem_of_cons, (IH es eq_refl). split.
      * intros [[= -> ->]|(filename & d & Hin & Hd & Hc)].
        -- exists f, data. by rewrite elem_of_cons; auto.
        -- exists filename, d. rewrite elem_of_cons. auto.
      * intros (filename & d & Hin & Hd & Hc).
        apply elem_of_cons in Hin as [[= -> ->]|Hin].
        -- left. congruence.
        -- right. eauto.
    + rewrite (IH entries H). split.
      * intros (filename & d & Hin & Hd & Hc).
        exists filename, d. rewrite elem_of_cons. auto.
      * intros (filename & d & Hin & Hd & Hc).
        apply elem_of_cons in Hin as [[= -> ->]|Hin]; [congruence|eauto].
Qed.

Lemma table_entries_names anims entries name :
  table_entries conv files anims = Some entries →
  name ∈ entries.*1 → name ∈ anims.*1.
Proof.
  intros H ([n a] & -> & Hin)%list_elem_of_fmap. simpl.
  apply (table_entries_elem _ _ _ _ H) in Hin as (filename & data & Hin & _).
  apply list_elem_of_fmap. by exists (n, filename).
Qed.

Lemma table_entries_NoDup anims entries :
  NoDup anims.*1 →
  table_entries conv files anims = Some entries →
  NoDup entries.*1.
Proof.
  revert entries. induction anims as [|[n f] rest IH]; intros entries Hnd H;
    simpl in H.
  - injection H as <-. constructor.
  - simpl in Hnd. apply list.NoDup_cons in Hnd as [Hn Hnd].
    destruct (files !! f) as [data|]; [|by apply IH].
    destruct (conv n data) as [a|]; [|done].
    destruct (table_entries conv files rest) as [es|] eqn:Hes; [|done].
    simpl in H. injection H as <-. simpl. apply list.NoDup_cons. split.
    + intros Hin. apply Hn. by eapply table_entries_names.
    + by apply IH.
Qed.

Lemma table_of_lookup anims table name anim :
  NoDup anims.*1 →
  table_of conv files anims = Some table →
  table !! name = Some anim
  ↔ ∃ filename data,
      (name, filename) ∈ anims ∧ files !! filename = Some data
      ∧ conv name data = Some anim.
Proof.
  unfold table_of. intros Hnd H.
  destruct (table_entries conv files anims) as [entries|] eqn:He; [|done].
  injection H as <-.
  rewrite <- (table_entries_elem _ _ _ _ He).
  symmetry. apply elem_of_list_to_map. by eapply table_entries_NoDup.
Qed.

Lemma table_entries_None anims :
  table_entries conv files anims = None
  ↔ ∃ name filename data,
      (name, filename) ∈ anims ∧ files !! filename = Some data
      ∧ conv name data = None.
Proof.
  induction anims as [|[n f] rest IH]; simpl.
  - split; [done|]. by intros (? & ? & ? & ?%elem_of_nil & _).
  - assert ((∃ name filename data,
               (name, filename) ∈ rest ∧ files !! filename = Some data
               ∧ conv name data = None)
            → ∃ name filename data,
               (name, filename) ∈ (n, f) :: rest
               ∧ files !! filename = Some data ∧ conv name data = None)
      as Hweak.
    { intros (name & filename & d & Hin & Hd & Hc).
      exists name, filename, d. rewrite elem_of_cons. auto. }
    destruct (files !! f) as [data|] eqn:Hf.
    + destruct (conv n data) as [a|] eqn:Ha; simpl.
      * destruct (table_entries conv files rest) as [es|]; simpl.
        -- split; [done|].
           intros (name & filename & d & Hin & Hd & Hc).
           apply elem_of_cons in Hin as [[= -> ->]|Hin]; [congruence|].
           assert (Some es = None) as Habs by (apply IH; eauto 6).
           done.
        -- split; [|done]. intros _. apply Hweak. by apply IH.
      * split; [|done]. intros _. exists n, f, data.
        rewrite elem_of_cons. auto.
    + split.
      * intros H. apply Hweak. by apply IH.
      * intros (name & filename & d & Hin & Hd & Hc).
        apply elem_of_cons in Hin as [[= -> ->]|Hin]; [congruence|].
        apply IH. eauto 6.
Qed.

Lemma table_of_None anims :
  table_of conv files anims = None
  ↔ ∃ name filename data,
      (name, filename) ∈ anims ∧ files !! filename = Some data
      ∧ conv name data = None.
Proof.
  rewrite <- table_entries_None. unfold table_of.
  by destruct (table_entries conv files anims).
Qed.

End MainLoopFacts.

Lemma anims_of_NoDup c : NoDup (anims_of c).*1.
Proof.
  destruct c; refine (bool_decide_unpack _ _); vm_compute; exact I.
Qed.

Lemma table_for_table_of c files :
  table_for c files = table_of (convert_anim_of c) files (anims_of c).
Proof. by destruct c. Qed.

(** X8: the generated table has an entry under [name] exactly when
    [ANIMS] lists [name] with a file that exists, and the entry is that
    file's document converted under that name; a name whose file is
    missing has no entry. *)
Theorem X8_table_contents c files table name anim :
  table_for c files = Some table →
  table !! name = Some anim
  ↔ ∃ filename data,
      (name, filename) ∈ anims_of c ∧ files !! filename = Some data
      ∧ convert_anim_of c name data = Some anim.
Proof.
  rewrite table_for_table_of. apply table_of_lookup, anims_of_NoDup.
Qed.

Lemma X8_table_contents_witness :
  zero_files_table !! "run"
    = Some (mkAnimation true (Some 1)
              [mkFrame 0 0 32 48 4 None None None None None;
               mkFrame 8 16 32 48 1 None None None None None])
  ↔ ∃ filename data,
      ("run", filename) ∈ anims_of ZeroScript
      ∧ zero_files !! filename = Some data
      ∧ convert_anim_of ZeroScript "run" data
        = Some (mkAnimation true (Some 1)
                  [mkFrame 0 0 32 48 4 None None None None None;
                   mkFrame 8 16 32 48 1 None None None None None]).
Proof.
  apply (X8_table_contents ZeroScript zero_files zero_files_table).
  vm_compute. reflexivity.
Defined.


Lemma table_of_present conv files anims table name filename data :
  NoDup anims.*1 →
  table_of conv files anims = Some table →
  (name, filename) ∈ anims →
  files !! filename = Some data →
  ∃ anim, conv name data = Some anim ∧ table !! name = Some anim.
Proof.
  intros Hnd Ht Hin Hf.
  destruct (conv name data) as [anim|] eqn:Hc.
  - exists anim. split; [done|].
    apply (table_of_lookup conv files anims table name anim Hnd Ht). eauto.
  - assert (table_of conv files anims = None) as Hnone
      by (apply table_of_None; eauto 6).
    congruence.
Qed.

Lemma resolve_spec_idle overlay table state firing :
  is_Some (table !! "idle") →
  is_Some (resolve_spec overlay table state firing).
Proof.
  intros [a Ha]. unfold resolve_spec. rewrite Ha.
  destruct overlay as [shoot_map|]; [|destruct (table !! state); eauto].
  destruct firing; [|destruct (table !! state); eauto].
  destruct (shoot_map !! state) as [s|]; [|destruct (table !! state); eauto].
  destruct (table !! s); destruct (table !! state); eauto.
Qed.

Lemma last_line_entry (table : gmap string CompiledAnimation) state anim :
  match JS.get table state with
  | Some a => Some a
  | None => JS.get table "idle"
  end = Some (JS.Own anim) →
  ∃ name, table !! name = Some anim.
Proof.
  destruct (JS.get table state) as [v|] eqn:E; intros H.
  - injection H as ->. apply get_Own_inv in E. eauto.
  - apply get_Own_inv in H. eauto.
Qed.

Lemma lookup_of_entry c member_key table state firing anim :
  lookup_of c member_key table state firing = Some (JS.Own anim) →
  ∃ name, table !! name = Some anim.
Proof.
  destruct c; simpl.
  - unfold Zero.getZeroAnim. intros H.
    destruct firing; [|by eapply last_line_entry].
    destruct (JS.get Zero.ZERO_SHOOT_ANIM_MAP state) as [v|];
      [|by eapply last_line_entry].
    destruct (JS.truthy Zero.js_truthy v); [|by eapply last_line_entry].
    destruct (JS.get table (JS.to_key member_key v)) as [w|] eqn:Es;
      [|by eapply last_line_entry].
    injection H as ->. apply get_Own_inv in Es. eauto.
  - apply last_line_entry.
Qed.

Lemma idle_in_anims c : ("idle", idle_file c) ∈ anims_of c.
Proof. destruct c; simpl; apply elem_of_cons; by left. Qed.

(** X11: over a generated table the lookup function returns an animation
    of the table for every firing flag and every state that is not the
    name of a member of [Object.prototype] exactly when the idle file of
    the character exists; without it the lookup of ["idle"] itself is
    [undefined]. *)
Theorem X11_lookup_defined_iff_idle c member_key files table :
  table_for c files = Some table →
  is_Some (files !! idle_file c)
  ↔ ∀ state firing,
      state ∉ JS.prototype_members →
      ∃ anim, lookup_of c member_key table state firing = Some (JS.Own anim).
Proof.
  rewrite table_for_table_of. intros Ht. split.
  - intros [data Hd] state firing Hs.
    rewrite (lookup_of_ordinary c member_key table state firing Hs).
    destruct (table_of_present _ _ _ _ _ _ _ (anims_of_NoDup c) Ht
                (idle_in_anims c) Hd) as (anim & _ & Hl).
    destruct (resolve_spec_idle (overlay_of c) table state firing
                (mk_is_Some _ _ Hl)) as [a Ha].
    exists a. by rewrite Ha.
  - intros H. destruct (H "idle" false idle_ordinary) as [anim Ha].
    rewrite (lookup_of_ordinary c member_key table "idle" false idle_ordinary)
      in Ha.
    assert (table !! "idle" = Some anim) as Hl.
    { unfold resolve_spec in Ha.
      destruct c; simpl in Ha; destruct (table !! "idle"); simpl in Ha;
        congruence. }
    apply (table_of_lookup _ _ _ _ _ _ (anims_of_NoDup c) Ht) in Hl
      as (filename & data & Hin & Hf & _).
    assert (filename = idle_file c) as ->; [|eauto].
    pose proof (elem_of_list_to_map_1 (M:=gmap string) (anims_of c) "idle"
                  filename (anims_of_NoDup c) Hin) as H1.
    pose proof (elem_of_list_to_map_1 (M:=gmap string) (anims_of c) "idle"
                  (idle_file c) (anims_of_NoDup c) (idle_in_anims c)) as H2.
    congruence.
Qed.

Lemma X11_lookup_defined_witness :
  is_Some (zero_files !! idle_file ZeroScript)
  ↔ ∀ state firing,
      state ∉ JS.prototype_members →
      ∃ anim,
        lookup_of ZeroScript (λ member, member) zero_files_table state firing
        = Some (JS.Own anim).
Proof.
  apply (X11_lookup_defined_iff_idle ZeroScript (λ member, member) zero_files
           zero_files_table).
  vm_compute. reflexivity.
Defined.

Lemma convert_anim_of_durations c name data anim :
  convert_anim_of c name data = Some anim →
  Forall (λ cf, 1 ≤ dur cf) (cframes anim).
Proof.
  intros (_ & _ & _ & Hk)%convert_anim_of_inv.
  apply Forall_lookup. intros k cf Hcf.
  destruct (Hk k cf Hcf) as (fr & _ & Hc).
  by eapply convert_frame_of_dur.
Qed.

(** X12: whatever state and firing flag the game asks for, every frame of
    the animation the lookup function returns from a generated table lasts
    at least one game frame. *)
Theorem X12_lookup_durations c member_key files table state firing anim :
  table_for c files = Some table →
  lookup_of c member_key table state firing = Some (JS.Own anim) →
  Forall (λ cf, 1 ≤ dur cf) (cframes anim).
Proof.
  rewrite table_for_table_of. intros Ht (name & Hl)%lookup_of_entry.
  apply (table_of_lookup _ _ _ _ _ _ (anims_of_NoDup c) Ht) in Hl
    as (filename & data & _ & _ & Hc).
  by eapply convert_anim_of_durations.
Qed.

Lemma X12_lookup_durations_witness :
  Forall (λ cf, 1 ≤ dur cf)
    (cframes (mkAnimation true (Some 5)
                [mkFrame 0 0 32 48 4 None None None None None])).
Proof.
  apply (X12_lookup_durations ZeroScript (λ member, member) zero_files
           zero_files_table "run" true).
  - vm_compute. reflexivity.
  - vm_compute. reflexivity.
Defined.

Lemma shoot_targets_in_anims state s :
  Zero.ZERO_SHOOT_ANIM_MAP !! state = Some s →
  (s, "zero_" +:+ s +:+ ".json") ∈ ZeroMain.ANIMS.
Proof.
  assert (map_Forall
            (λ (_ : string) (t : string),
               (t, "zero_" +:+ t +:+ ".json") ∈ ZeroMain.ANIMS)
            Zero.ZERO_SHOOT_ANIM_MAP) as Hall.
  { refine (bool_decide_unpack _ _). vm_compute. exact I. }
  apply Hall.
Qed.

Lemma zero_anims_NoDup : NoDup ZeroMain.ANIMS.*1.
Proof. refine (bool_decide_unpack _ _). vm_compute. exact I. Qed.

Lemma zero_table_present files table name filename data :
  ZeroMain.ZERO_ANIMATIONS files = Some table →
  (name, filename) ∈ ZeroMain.ANIMS →
  files !! filename = Some data →
  ∃ anim, Zero.convert_anim name data = Some anim ∧ table !! name = Some anim.
Proof.
  unfold ZeroMain.ZERO_ANIMATIONS. intros Ht Hin Hf.
  exact (table_of_present Zero.convert_anim files ZeroMain.ANIMS table name
           filename data zero_anims_NoDup Ht Hin Hf).
Qed.

Lemma getZeroAnim_overlay member_key table state s anim :
  Zero.ZERO_SHOOT_ANIM_MAP !! state = Some s →
  table !! s = Some anim →
  Zero.getZeroAnim member_key table state true = Some (JS.Own anim).
Proof.
  intros Hs Hl. unfold Zero.getZeroAnim.
  rewrite (get_own _ state s Hs). simpl.
  by rewrite (shoot_map_truthy _ _ Hs), (get_own table s anim Hl).
Qed.

(** X13: every target of the shoot overlay map is an animation [ANIMS]
    builds from the file [zero_<target>.json]; so over a generated table,
    firing in a state the map knows returns the compiled shoot clip
    whenever that file exists. *)
Theorem X13_shoot_overlay_is_served member_key files table state s data :
  ZeroMain.ZERO_ANIMATIONS files = Some table →
  Zero.ZERO_SHOOT_ANIM_MAP !! state = Some s →
  files !! ("zero_" +:+ s +:+ ".json") = Some data →
  is_Some (Zero.convert_anim s data)
  ∧ Zero.getZeroAnim member_key table state true
    = JS.Own <$> Zero.convert_anim s data.
Proof.
  intros Ht Hs Hf.
  pose proof (shoot_targets_in_anims state s Hs) as Hin.
  destruct (zero_table_present files table s _ data Ht Hin Hf)
    as (anim & Hc & Hl).
  rewrite Hc. split; [eauto|].
  by apply (getZeroAnim_overlay member_key table state s).
Qed.

Lemma X13_shoot_overlay_witness :
  is_Some (Zero.convert_anim "run_shoot" stray_loop_clip)
  ∧ Zero.getZeroAnim (λ member, member) zero_files_table "run" true
    = JS.Own <$> Zero.convert_anim "run_shoot" stray_loop_clip.
Proof.
  apply (X13_shoot_overlay_is_served (λ member, member) zero_files
           zero_files_table "run" "run_shoot" stray_loop_clip).
  - vm_compute. reflexivity.
  - vm_compute. reflexivity.
  - vm_compute. reflexivity.
Defined.

(** ** The text of a frame *)

Lemma app_cons c a b : String c a +:+ b = String c (a +:+ b).
Proof. reflexivity. Qed.

Lemma app_nil_l b : "" +:+ b = b.
Proof. reflexivity. Qed.

Lemma app_nil_r a : a +:+ "" = a.
Proof. induction a as [|c a IH]; [done|]. by rewrite app_cons, IH. Qed.

Lemma app_assoc_s a b c : (a +:+ b) +:+ c = a +:+ b +:+ c.
Proof. induction a as [|x a IH]; [done|]. by rewrite !app_cons, IH. Qed.

Lemma but_last_snoc s c : but_last (s +:+ String c "") = s.
Proof.
  induction s as [|a s IH]; [done|].
  rewrite app_cons. simpl. rewrite IH. by destruct s.
Qed.

Lemma concat_snoc sep l x :
  l ≠ [] → String.concat sep (l ++ [x]) = String.concat sep l +:+ sep +:+ x.
Proof.
  induction l as [|a l IH]; [done|]. intros _.
  destruct l as [|b l]; [done|].
  change (String.concat sep ((a :: b :: l) ++ [x]))
    with (a +:+ sep +:+ String.concat sep ((b :: l) ++ [x])).
  rewrite IH by done.
  change (String.concat sep (a :: b :: l))
    with (a +:+ sep +:+ String.concat sep (b :: l)).
  by rewrite !app_assoc_s.
Qed.

Lemma append_if_text key v parts :
  parts ≠ [] →
  append_if key v parts ≠ []
  ∧ String.concat ", " (append_if key v parts)
    = String.concat ", " parts +:+ field_text key v.
Proof.
  intros Hne. destruct v as [n|]; simpl.
  - split; [by destruct parts|]. by rewrite concat_snoc.
  - split; [done|]. by rewrite app_nil_r.
Qed.

(** The text of a frame has the fixed field order of [frame_text]. *)
Lemma format_frame_text f : format_frame f = frame_text f.
Proof.
  unfold format_frame, frame_text.
  set (parts := [_; _; _; _; _]).
  assert (parts ≠ []) as H0 by done.
  destruct (append_if_text "ox" (ox f) parts H0) as [H1 E1].
  destruct (append_if_text "oy" (oy f) _ H1) as [H2 E2].
  destruct (append_if_text "hx" (hx f) _ H2) as [H3 E3].
  destruct (append_if_text "hy" (hy f) _ H3) as [H4 E4].
  rewrite E4, E3, E2, E1.
  assert (String.concat ", " parts
          = "sx:" +:+ py_str (sx f) +:+ ", sy:" +:+ py_str (sy f)
              +:+ ", sw:" +:+ py_str (sw f) +:+ ", sh:" +:+ py_str (sh f)
              +:+ ", dur:" +:+ py_str (dur f)) as ->.
  { unfold parts. cbn [String.concat]. by rewrite !app_assoc_s. }
  destruct (atkBox f) as [ab|]; unfold box_text.
  - rewrite <- (app_assoc_s "{" _ "}"), but_last_snoc.
    by rewrite !app_assoc_s.
  - by rewrite !app_assoc_s.
Qed.

Lemma prefix_app p x : String.prefix p (p +:+ x) = true.
Proof.
  induction p as [|c p IH]; [by destruct x|].
  rewrite app_cons. simpl. by destruct (Ascii.ascii_dec c c).
Qed.

Lemma uint_cancel d : ∀ d' s t,
  NilEmpty.string_of_uint d +:+ s = NilEmpty.string_of_uint d' +:+ t →
  delimited s = true → delimited t = true → d = d' ∧ s = t.
Proof.
  induction d as [|d IH|d IH|d IH|d IH|d IH|d IH|d IH|d IH|d IH|d IH];
    intros d' s t H Hs Ht; destruct d'; simpl in H;
    rewrite ?app_cons, ?app_nil_l in H;
    try (by subst; discriminate);
    try discriminate H;
    try (injection H as H; by destruct (IH _ _ _ H Hs Ht) as [-> ->]).
  by split.
Qed.

Lemma to_int_digits z :
  ∃ d, d ≠ Decimal.Nil
       ∧ (Z.to_int z = Decimal.Pos d ∨ Z.to_int z = Decimal.Neg d).
Proof.
  destruct z as [|p|p]; simpl.
  - exists (Decimal.D0 Decimal.Nil). split; [done|by left].
  - exists (Pos.to_uint p). split; [apply Unsigned.to_uint_nonnil|by left].
  - exists (Pos.to_uint p). split; [apply Unsigned.to_uint_nonnil|by right].
Qed.

Lemma nilzero_nonnil d :
  d ≠ Decimal.Nil → NilZero.string_of_uint d = NilEmpty.string_of_uint d.
Proof. by destruct d. Qed.

Lemma digits_head d s :
  d ≠ Decimal.Nil →
  ∃ c r, NilEmpty.string_of_uint d +:+ s = String c r ∧ is_digit c = true.
Proof.
  intros Hd. destruct d; [done|..]; simpl; rewrite app_cons; eauto.
Qed.

(** Two decimal numbers followed by a comma or a brace: equal texts have
    equal numbers and equal remainders. *)
Lemma py_str_cancel a b s t :
  py_str a +:+ s = py_str b +:+ t →
  delimited s = true → delimited t = true → a = b ∧ s = t.
Proof.
  unfold py_str. intros H Hs Ht.
  destruct (to_int_digits a) as (da & Hda & Ea).
  destruct (to_int_digits b) as (db & Hdb & Eb).
  assert (Z.to_int a = Z.to_int b ∧ s = t) as [E ->].
  { destruct Ea as [Ea|Ea], Eb as [Eb|Eb]; rewrite Ea, Eb in H |- *;
      unfold NilZero.string_of_int in H;
      rewrite !nilzero_nonnil in H by done; rewrite ?app_cons in H.
    - by destruct (uint_cancel _ _ _ _ H Hs Ht) as [-> ->].
    - destruct (digits_head da s Hda) as (c & r & Hc & Hdig).
      rewrite Hc in H. injection H as -> _. done.
    - destruct (digits_head db t Hdb) as (c & r & Hc & Hdig).
      rewrite Hc in H. injection H as <- _. done.
    - injection H as H.
      by destruct (uint_cancel _ _ _ _ H Hs Ht) as [-> ->]. }
  split; [|done].
  by rewrite <- (DecimalZ.of_to a), <- (DecimalZ.of_to b), E.
Qed.

Lemma field_text_delimited key v s :
  delimited s = true → delimited (field_text key v +:+ s) = true.
Proof. by destruct v. Qed.

Lemma box_text_delimited b s :
  delimited s = true → delimited (box_text b +:+ s) = true.
Proof. by destruct b. Qed.

Lemma field_cancel key a b s t :
  field_text key a +:+ s = field_text key b +:+ t →
  delimited s = true → delimited t = true →
  String.prefix (", " +:+ key +:+ ":") s = false →
  String.prefix (", " +:+ key +:+ ":") t = false →
  a = b ∧ s = t.
Proof.
  intros H Hs Ht Ps Pt. destruct a as [n|], b as [m|]; unfold field_text in H;
    rewrite ?app_assoc_s, ?app_nil_l in H.
  - apply (inj (String.app ", ")), (inj (String.app key)),
      (inj (String.app ":")) in H.
    by destruct (py_str_cancel _ _ _ _ H Hs Ht) as [-> ->].
  - assert (t = (", " +:+ key +:+ ":") +:+ py_str n +:+ s) as E
      by (by rewrite !app_assoc_s).
    by rewrite E, prefix_app in Pt.
  - assert (s = (", " +:+ key +:+ ":") +:+ py_str m +:+ t) as E
      by (by rewrite !app_assoc_s).
    by rewrite E, prefix_app in Ps.
  - by rewrite H.
Qed.

Lemma box_cancel a b : box_text a +:+ "}" = box_text b +:+ "}" → a = b.
Proof.
  destruct a as [[w h x y]|], b as [[w' h' x' y']|]; unfold box_text; simpl;
    rewrite ?app_assoc_s; intros H.
  - apply (inj (String.app ", atkBox:{w:")) in H.
    apply py_str_cancel in H as [-> H]; [|done..].
    apply (inj (String.app ",h:")) in H.
    apply py_str_cancel in H as [-> H]; [|done..].
    apply (inj (String.app ",ox:")) in H.
    apply py_str_cancel in H as [-> H]; [|done..].
    apply (inj (String.app ",oy:")) in H.
    by apply py_str_cancel in H as [-> H].
  - by apply (f_equal (String.get 0)) in H.
  - by apply (f_equal (String.get 0)) in H.
  - done.
Qed.

Lemma frame_text_inj f g : frame_text f = frame_text g → f = g.
Proof.
  unfold frame_text. intros H.
  assert (∀ b, delimited (box_text b +:+ "}") = true) as D5
    by (intros b; by apply box_text_delimited).
  assert (∀ v b, delimited (field_text "hy" v +:+ box_text b +:+ "}") = true)
    as D4 by (intros; by apply field_text_delimited).
  assert (∀ u v b, delimited (field_text "hx" u +:+ field_text "hy" v
                              +:+ box_text b +:+ "}") = true)
    as D3 by (intros; by apply field_text_delimited).
  assert (∀ u1 u v b, delimited (field_text "oy" u1 +:+ field_text "hx" u
                                 +:+ field_text "hy" v +:+ box_text b
                                 +:+ "}") = true)
    as D2 by (intros; by apply field_text_delimited).
  assert (∀ u0 u1 u v b, delimited (field_text "ox" u0 +:+ field_text "oy" u1
                                    +:+ field_text "hx" u
                                    +:+ field_text "hy" v +:+ box_text b
                                    +:+ "}") = true)
    as D1 by (intros; by apply field_text_delimited).
  apply (inj (String.app "{sx:")) in H.
  apply py_str_cancel in H as [Esx H]; [|done..].
  apply (inj (String.app ", sy:")) in H.
  apply py_str_cancel in H as [Esy H]; [|done..].
  apply (inj (String.app ", sw:")) in H.
  apply py_str_cancel in H as [Esw H]; [|done..].
  apply (inj (String.app ", sh:")) in H.
  apply py_str_cancel in H as [Esh H]; [|done..].
  apply (inj (String.app ", dur:")) in H.
  apply py_str_cancel in H as [Edur H]; [|done..].
  apply field_cancel in H as [Eox H]; [|done|done|..].
  2: by destruct (oy f), (hx f), (hy f), (atkBox f).
  2: by destruct (oy g), (hx g), (hy g), (atkBox g).
  apply field_cancel in H as [Eoy H]; [|done|done|..].
  2: by destruct (hx f), (hy f), (atkBox f).
  2: by destruct (hx g), (hy g), (atkBox g).
  apply field_cancel in H as [Ehx H]; [|done|done|..].
  2: by destruct (hy f), (atkBox f).
  2: by destruct (hy g), (atkBox g).
  apply field_cancel in H as [Ehy H]; [|done|done|..].
  2: by destruct (atkBox f).
  2: by destruct (atkBox g).
  apply box_cancel in H.
  destruct f, g; simpl in *; congruence.
Qed.

(** X14: the text of a frame determines the frame: [format_frame] maps
    different compiled frames to different texts, so no key or value is
    lost or blurred in the generated module. *)
Theorem X14_format_frame_injective f g :
  format_frame f = format_frame g → f = g.
Proof. rewrite !format_frame_text. apply frame_text_inj. Qed.

Lemma X14_format_frame_witness :
  mkFrame 0 0 32 48 2 None (Some (-3)) (Some 4) (Some 5)
    (Some (mkAtkBox 20 30 4 (-12)))
  = mkFrame 0 0 32 48 2 None (Some (-3)) (Some 4) (Some 5)
      (Some (mkAtkBox 20 30 4 (-12))).
Proof.
  apply (X14_format_frame_injective
           (mkFrame 0 0 32 48 2 None (Some (-3)) (Some 4) (Some 5)
              (Some (mkAtkBox 20 30 4 (-12))))).
  reflexivity.
Defined.

(** X15: the text of a frame is an opening brace, the fields [sx], [sy],
    [sw], [sh], [dur], then [ox], [oy], [hx], [hy] for the keys the frame
    has, in this order and separated by a comma and a space, then the
    attack box when there is one, then the closing brace: the brace that
    [base[:-1]] removes is the one written back after the attack box. *)
Theorem X15_format_frame_shape f : format_frame f = frame_text f.
Proof. apply format_frame_text. Qed.

(** * The controller mapping tool *)

(** ** The text of the table *)

Lemma entry_lines_block c name data anim :
  convert_anim_of c name data = Some anim →
  entry_lines name anim = block_text name anim.
Proof.
  intros (_ & Hs & _)%convert_anim_of_inv.
  unfold entry_lines, block_text, loop_str, loop_start_str.
  assert (match loopStart anim with
          | Some v => if v =? 0 then "" else ", loopStart: " +:+ py_str v
          | None => ""
          end
          = match loopStart anim with
            | Some v => ", loopStart: " +:+ py_str v
            | None => ""
            end) as ->.
  { rewrite Hs.
    destruct (loop anim && (0 <? default 0 (loopStartFrame data))) eqn:E;
      [|done].
    apply andb_true_iff in E as [_ E%Z.ltb_lt].
    destruct (Z.eqb_spec (default 0 (loopStartFrame data)) 0); [lia|done]. }
  simpl. do 2 f_equal.
  apply Forall_fmap_ext_1, list.Forall_forall. intros f _.
  by rewrite format_frame_text.
Qed.

(** X10: when the loop of [main] returns, the text it has appended after
    the lines already there is the block of every animation whose file
    exists, in the order of [ANIMS]: the opening line with the name, the
    loop flag and the loop start when the clip has one, one line per
    compiled frame holding the text of the frame and a comma, and the
    closing line.  The two sample directories give the text shown. *)
Theorem X10_main_text_is_the_entries c files lines :
  main_loop (convert_anim_of c) files (anims_of c) lines
  = match table_entries (convert_anim_of c) files (anims_of c) with
    | Some entries =>
        Some (lines ++ concat ((λ e, block_text e.1 e.2) <$> entries))
    | None => None
    end
  ∧ main_loop Zero.convert_anim zero_files ZeroMain.ANIMS
      ["export const ZERO_ANIMATIONS = {"]
    = Some ["export const ZERO_ANIMATIONS = {";
            "    idle: { loop: false, frames: [";
            "        {sx:0, sy:0, sw:32, sh:48, dur:4},";
            "    ] },";
            "    run: { loop: true, loopStart: 1, frames: [";
            "        {sx:0, sy:0, sw:32, sh:48, dur:4},";
            "        {sx:8, sy:16, sw:32, sh:48, dur:1},";
            "    ] },";
            "    run_shoot: { loop: true, loopStart: 5, frames: [";
            "        {sx:0, sy:0, sw:32, sh:48, dur:4},";
            "    ] },"]
  ∧ main_loop Sigma.convert_anim sigma_files SigmaMain.ANIMS
      ["export const SIGMA_ANIMATIONS = {"]
    = Some ["export const SIGMA_ANIMATIONS = {";
            "    idle: { loop: false, frames: [";
            "        {sx:0, sy:0, sw:32, sh:48, dur:4},";
            "    ] },";
            "    attack: { loop: false, frames: [";
            "        {sx:0, sy:0, sw:32, sh:48, dur:2},";
            "        {sx:8, sy:16, sw:32, sh:48, dur:2},";
            "        {sx:0, sy:0, sw:32, sh:48, dur:3, atkBox:{w:23,h:40,ox:30,oy:-32}},";
            "        {sx:8, sy:16, sw:32, sh:48, dur:10, atkBox:{w:23,h:40,ox:30,oy:-32}},";
            "    ] },"].
Proof.
  split; [|split; vm_compute; reflexivity].
  rewrite main_loop_entries.
  destruct (table_entries (convert_anim_of c) files (anims_of c))
    as [entries|] eqn:He; [|done].
  do 3 f_equal.
  apply Forall_fmap_ext_1, list.Forall_forall. intros [name anim] Hin. simpl.
  apply (table_entries_elem _ _ _ _ _ _ He) in Hin
    as (filename & data & _ & _ & Hc).
  by apply (entry_lines_block c name data).
Qed.

Section ControllerFacts.

Import Controller.

(** An axis is never beyond the dead zone of its own value, whatever the
    value: a finite one, an infinity or a NaN. *)
Lemma beyond_deadzone_self v : beyond_deadzone v v = false.
Proof.
  unfold beyond_deadzone. rewrite ltb_spec, abs_spec, sub_spec.
  destruct (Prim2SF v) as [sg|sg| |sg m e].
  - by destruct sg.
  - by destruct sg.
  - done.
  - unfold SF64sub, SFsub. rewrite Z.sub_diag. reflexivity.
Qed.

Lemma fill_baseline_lookup axes : ∀ (a : nat) baseline (k : nat),
  fill_baseline a axes baseline !! Z.of_nat k
  = if decide (a ≤ k)%nat
    then match axes !! (k - a)%nat with
         | Some v => Some v
         | None => baseline !! Z.of_nat k
         end
    else baseline !! Z.of_nat k.
Proof.
  induction axes as [|v rest IH]; intros a baseline k; simpl.
  - by destruct (decide (a ≤ k)%nat).
  - rewrite IH. destruct (decide (S a ≤ k)%nat) as [Hk|Hk].
    + rewrite decide_True by lia.
      replace (k - a)%nat with (S (k - S a)) by lia. simpl.
      destruct (rest !! (k - S a)%nat); [done|].
      apply lookup_insert_ne. lia.
    + destruct (decide (a ≤ k)%nat) as [Hk'|Hk'].
      * assert (k = a) as -> by lia.
        replace (a - a)%nat with 0%nat by lia. simpl.
        apply lookup_insert_eq.
      * apply lookup_insert_ne. lia.
Qed.

Lemma fill_baseline_negative axes : ∀ (a : nat) baseline z,
  z < 0 → fill_baseline a axes baseline !! z = baseline !! z.
Proof.
  induction axes as [|v rest IH]; intros a baseline z Hz; simpl; [done|].
  rewrite IH by done. apply lookup_insert_ne. lia.
Qed.

(** X16: the baseline dictionary maps every axis index in range to the
    value the axis had when the baseline was read, and has no other
    non-negative key and no negative key. *)
Theorem X16_baseline_holds_the_axes js :
  (∀ k : nat, read_axis_baseline js !! Z.of_nat k = get_axes js !! k)
  ∧ (∀ z, z < 0 → read_axis_baseline js !! z = None).
Proof.
  unfold read_axis_baseline. split.
  - intros k. rewrite fill_baseline_lookup, decide_True by lia.
    replace (k - 0)%nat with k by lia.
    by destruct (get_axes js !! k).
  - intros z Hz. by rewrite fill_baseline_negative.
Qed.

Lemma rest_or_zero_default axis_baseline a :
  rest_or_zero axis_baseline a
  = default 0%float (default ∅ axis_baseline !! a).
Proof.
  destruct axis_baseline as [baseline|]; simpl; [|by rewrite lookup_empty].
  case_bool_decide as Hsize; [|done].
  apply map_size_empty_inv in Hsize. subst baseline. by rewrite lookup_empty.
Qed.

Lemma poll_buttons_None b buttons :
  poll_buttons b buttons = None ↔ existsb id buttons = false.
Proof.
  revert b. induction buttons as [|pressed more IH]; intros b; simpl; [done|].
  destruct pressed; simpl; [split; discriminate|apply IH].
Qed.

Lemma poll_hats_None h hats :
  poll_hats h hats = None ↔ existsb hat_pressed hats = false.
Proof.
  revert h. induction hats as [|v more IH]; intros h; simpl; [done|].
  destruct (hat_pressed v); simpl; [split; discriminate|apply IH].
Qed.

Lemma poll_axes_None axis_baseline a axes :
  poll_axes (default ∅ axis_baseline) a axes = None
  ↔ any_axis_active axis_baseline a axes = false.
Proof.
  revert a. induction axes as [|val more IH]; intros a; simpl; [done|].
  rewrite rest_or_zero_default.
  destruct (beyond_deadzone val _); simpl; [split; discriminate|apply IH].
Qed.

Lemma released_iff_poll js axis_baseline :
  any_active js axis_baseline = false
  ↔ poll (default ∅ axis_baseline) true true true js = None.
Proof.
  unfold any_active, poll.
  rewrite !orb_false_iff, <- (poll_buttons_None 0), <- (poll_hats_None 0),
    <- (poll_axes_None axis_baseline 0).
  destruct (poll_buttons 0 (get_buttons js)) as [r|].
  { split; [by intros [[? _] _]|done]. }
  destruct (poll_hats 0 (get_hats js)) as [r|].
  { split; [by intros [_ ?]|done]. }
  tauto.
Qed.

(** X17: [wait_for_release] and the polling fallback of
    [detect_any_input] agree on what an active controller is: a joystick
    state counts as released exactly when polling it for buttons, hats
    and axes together finds nothing. *)
Theorem X17_released_iff_nothing_to_poll js axis_baseline :
  any_active js axis_baseline = false
  ↔ poll (default ∅ axis_baseline) true true true js = None.
Proof. apply released_iff_poll. Qed.

Lemma poll_None_any_flags baseline js ab aa ah :
  poll baseline true true true js = None → poll baseline ab aa ah js = None.
Proof.
  unfold poll.
  destruct (poll_buttons 0 (get_buttons js)); [done|].
  destruct (poll_hats 0 (get_hats js)); [done|].
  intros ->. by destruct ab, ah, aa.
Qed.

Lemma any_axis_at_rest axis_baseline axes : ∀ a : nat,
  (∀ (k : nat) v, axes !! k = Some v →
     rest_or_zero axis_baseline (Z.of_nat (a + k)) = v) →
  any_axis_active axis_baseline a axes = false.
Proof.
  induction axes as [|val more IH]; intros a H; simpl; [done|].
  pose proof (H 0%nat val eq_refl) as H0.
  replace (a + 0)%nat with a in H0 by lia.
  rewrite H0, beyond_deadzone_self. simpl.
  apply IH. intros k v Hk.
  replace (S a + k)%nat with (a + S k)%nat by lia. by apply H.
Qed.

Lemma existsb_all_false {A} (f : A → bool) l :
  Forall (λ x, f x = false) l → existsb f l = false.
Proof. induction 1 as [|x l Hx _ IH]; [done|]. simpl. by rewrite Hx. Qed.

Lemma rest_at_baseline js (k : nat) v :
  get_axes js !! k = Some v →
  rest_or_zero (Some (read_axis_baseline js)) (Z.of_nat k) = v.
Proof.
  intros Hk.
  assert (read_axis_baseline js !! Z.of_nat k = Some v) as Hl.
  { unfold read_axis_baseline.
    rewrite fill_baseline_lookup, decide_True by lia.
    replace (k - 0)%nat with k by lia. by rewrite Hk. }
  simpl. rewrite bool_decide_false, Hl; [done|].
  intros Hsize. apply map_size_empty_inv in Hsize.
  rewrite Hsize in Hl. by rewrite lookup_empty in Hl.
Qed.

(** X18: a controller whose buttons and hats are released and whose axes
    sit where they sat when the baseline was read counts as released for
    [wait_for_release], and polling it reports nothing whichever kinds of
    input are accepted, wherever the axes rest (triggers resting at -1.0
    included). *)
Theorem X18_resting_controller_is_released js :
  Forall (λ b, b = false) (get_buttons js) →
  Forall (λ v, hat_pressed v = false) (get_hats js) →
  any_active js (Some (read_axis_baseline js)) = false
  ∧ ∀ accept_buttons accept_axes accept_hats,
      poll (read_axis_baseline js) accept_buttons accept_axes accept_hats js
      = None.
Proof.
  intros Hb Hh.
  assert (any_active js (Some (read_axis_baseline js)) = false) as Hrel.
  { unfold any_active.
    rewrite (existsb_all_false id), (existsb_all_false hat_pressed);
      [|done|done].
    rewrite any_axis_at_rest; [done|].
    intros k v Hk. by apply rest_at_baseline. }
  split; [done|].
  intros ab aa ah. apply poll_None_any_flags.
  by apply (released_iff_poll js (Some (read_axis_baseline js))).
Qed.

Lemma X18_resting_controller_witness :
  any_active resting_pad (Some (read_axis_baseline resting_pad)) = false
  ∧ ∀ accept_buttons accept_axes accept_hats,
      poll (read_axis_baseline resting_pad) accept_buttons accept_axes
        accept_hats resting_pad
      = None.
Proof.
  apply (X18_resting_controller_is_released resting_pad);
    repeat constructor.
Defined.

Lemma direction_of_unit val rest :
  direction_of val rest = 1 ∨ direction_of val rest = -1.
Proof. unfold direction_of. destruct (_ <? _)%float; auto. Qed.

Section DetectFacts.

Variable baseline : gmap Z float.
Variables ab aa ah : bool.

Lemma scan_events_kind events r :
  scan_events baseline ab aa ah events = Some (Some r) →
  accepted_kind ab aa ah r.
Proof.
  induction events as [|ev more IH]; simpl; [done|].
  destruct (scan_event baseline ab aa ah ev) as [res|] eqn:Hev; [|done].
  intros [= ->]. destruct ev; simpl in Hev.
  - done.
  - by destruct (key =? K_ESCAPE).
  - destruct ab; [|done]. by injection Hev as <-.
  - destruct ah; [|done]. simpl in Hev.
    destruct (hat_pressed value) eqn:Hv; [|done]. by injection Hev as <-.
  - destruct aa; [|done]. simpl in Hev.
    destruct (beyond_deadzone value _); [|done]. injection Hev as <-.
    split; [done|apply direction_of_unit].
  - done.
Qed.

Lemma poll_buttons_kind b buttons r :
  poll_buttons b buttons = Some r → ∃ z, r = Button z ∧ Z.of_nat b ≤ z.
Proof.
  revert b. induction buttons as [|pressed more IH]; intros b; simpl; [done|].
  destruct pressed.
  - intros [= <-]. eauto with lia.
  - intros (z & -> & Hz)%IH. exists z. split; [done|lia].
Qed.

Lemma poll_hats_kind h hats r :
  poll_hats h hats = Some r → ∃ z v, r = Hat z v ∧ hat_pressed v = true.
Proof.
  revert h. induction hats as [|v more IH]; intros h; simpl; [done|].
  destruct (hat_pressed v) eqn:Hv; [|apply IH]. intros [= <-]. eauto.
Qed.

Lemma poll_axes_kind a axes r :
  poll_axes baseline a axes = Some r →
  ∃ z d, r = Axis z d ∧ (d = 1 ∨ d = -1).
Proof.
  revert a. induction axes as [|val more IH]; intros a; simpl; [done|].
  destruct (beyond_deadzone val _); [|apply IH].
  intros [= <-]. eauto using direction_of_unit.
Qed.

Lemma poll_kind js r :
  poll baseline ab aa ah js = Some r → accepted_kind ab aa ah r.
Proof.
  unfold poll.
  destruct (if ab then poll_buttons 0 (get_buttons js) else None) as [r1|]
    eqn:H1.
  { intros [= ->]. destruct ab; [|done].
    by apply poll_buttons_kind in H1 as (z & -> & _). }
  destruct (if ah then poll_hats 0 (get_hats js) else None) as [r2|] eqn:H2.
  { intros [= ->]. destruct ah; [|done].
    by apply poll_hats_kind in H2 as (z & v & -> & ?). }
  destruct aa; [|done].
  by intros (z & d & -> & ?)%poll_axes_kind.
Qed.

Lemma detect_loop_kind world r :
  detect_loop baseline ab aa ah world = Some r → accepted_kind ab aa ah r.
Proof.
  induction world as [|[events js] rest IH]; simpl; [done|].
  unfold detect_round.
  destruct (scan_events baseline ab aa ah events) as [res|] eqn:Hs.
  { intros ->. by eapply scan_events_kind. }
  destruct (poll baseline ab aa ah js) as [r'|] eqn:Hp; [|done].
  intros [= ->]. by eapply poll_kind.
Qed.

End DetectFacts.

(** X19: whatever pygame reports, [detect_any_input] returns [None] or an
    input of a kind its caller accepted; a hat it reports is off centre,
    and an axis it reports has direction 1 or -1.  So the ["index"] that
    [map_button] reads is a button's, and the ["direction"] that
    [map_analog] reads exists. *)
Theorem X19_detected_input_is_accepted world axis_baseline
    accept_buttons accept_axes accept_hats r :
  detect_any_input world axis_baseline accept_buttons accept_axes accept_hats
    = Some r →
  accepted_kind accept_buttons accept_axes accept_hats r.
Proof.
  unfold detect_any_input. destruct world as [|drained rest]; [done|].
  apply detect_loop_kind.
Qed.

Lemma X19_detected_input_witness :
  accepted_kind true false false (Button 2).
Proof.
  apply (X19_detected_input_is_accepted
           [([], resting_pad); ([OTHER], resting_pad); ([], held_pad)]
           (Some (read_axis_baseline resting_pad)) true false false).
  vm_compute. reflexivity.
Defined.

Lemma poll_buttons_lowest buttons : ∀ (b i : nat),
  poll_buttons b buttons = Some (Button (Z.of_nat (b + i)))
  ↔ buttons !! i = Some true ∧ ∀ j : nat, (j < i)%nat → buttons !! j = Some false.
Proof.
  induction buttons as [|pressed more IH]; intros b i; simpl.
  - split; [done|]. by intros [? _].
  - destruct pressed.
    + split.
      * intros [= Hi]. assert (i = 0%nat) as -> by lia.
        split; [done|]. intros j Hj. lia.
      * intros [Hi Hlow]. destruct i as [|i].
        -- do 3 f_equal. lia.
        -- by specialize (Hlow 0%nat ltac:(lia)).
    + destruct i as [|i].
      * split; [|by intros [? _]].
        intros (z & [= Hz] & Hge)%poll_buttons_kind. lia.
      * replace (b + S i)%nat with (S b + i)%nat by lia. rewrite IH.
        split; intros [Hi Hlow]; (split; [done|]).
        -- intros [|j] Hj; [done|]. apply Hlow. lia.
        -- intros j Hj. apply (Hlow (S j)). lia.
Qed.

(** X20: when buttons are accepted, polling reports button [i] exactly
    when [i] is the lowest pressed button, whatever the hats and axes do:
    buttons come before hats and axes, and lower indices first. *)
Theorem X20_poll_reports_lowest_button baseline accept_axes accept_hats js
    (i : nat) :
  poll baseline true accept_axes accept_hats js = Some (Button (Z.of_nat i))
  ↔ get_buttons js !! i = Some true
    ∧ ∀ j : nat, (j < i)%nat → get_buttons js !! j = Some false.
Proof.
  rewrite <- (poll_buttons_lowest (get_buttons js) 0 i). unfold poll. simpl.
  destruct (poll_buttons 0 (get_buttons js)) as [r|]; [done|].
  split; [|done].
  destruct (if accept_hats then poll_hats 0 (get_hats js) else None)
    as [r|] eqn:Hh.
  { intros [= ->]. destruct accept_hats; [|done].
    by apply poll_hats_kind in Hh as (? & ? & ? & _). }
  destruct accept_axes; [|done].
  by intros (? & ? & ? & _)%poll_axes_kind.
Qed.

(** X22: [wait_for_release] has no timeout: it returns at the first round
    in which the controller is released, leaving the rounds after it, and
    it is still waiting at the end of any stretch of rounds in which the
    controller is active throughout (a stuck button, say). *)
Theorem X22_wait_returns_at_first_release axis_baseline world :
  match wait_for_release axis_baseline world with
  | Some rest =>
      ∃ before events js,
        world = before ++ (events, js) :: rest
        ∧ any_active js axis_baseline = false
        ∧ Forall (λ round, any_active round.2 axis_baseline = true) before
  | None => Forall (λ round, any_active round.2 axis_baseline = true) world
  end.
Proof.
  induction world as [|[events js] more IH]; simpl; [constructor|].
  destruct (any_active js axis_baseline) eqn:Hact.
  - destruct (wait_for_release axis_baseline more) as [rest|].
    + destruct IH as (before & events' & js' & -> & Hrel & Hall).
      exists ((events, js) :: before), events', js'.
      split; [done|]. split; [done|]. by constructor.
    + by constructor.
  - exists [], events, js. split; [done|]. split; [done|]. constructor.
Qed.

End ControllerFacts.

(** * What makes the conversion of a frame raise *)

Lemma int_is_Some x : is_Some (Py.int x) ↔ finite x.
Proof.
  destruct x as [z|f]; simpl; [by split; eauto|].
  unfold Py.float_int.
  destruct (Prim2SF f); split; try done; try (by intros [? ?]); eauto.
Qed.

Lemma round_is_Some x : is_Some (Py.round x) ↔ finite x.
Proof.
  destruct x as [z|f]; simpl; [by split; eauto|].
  unfold Py.float_round.
  destruct (Prim2SF f); split; try done; try (by intros [? ?]); eauto.
Qed.

Lemma is_Some_bind {A B} (m : option A) (k : A → option B) :
  is_Some (m ≫= k) ↔ ∃ a, m = Some a ∧ is_Some (k a).
Proof.
  destruct m as [a|]; simpl.
  - split; [eauto|]. by intros (? & [= <-] & ?).
  - split; [by intros [? ?]|]. by intros (? & ? & _).
Qed.

Lemma frame_rect_is_Some fr :
  is_Some (frame_rect fr)
  ↔ finite (pt_x (topLeftPoint (rect fr)))
    ∧ finite (pt_y (topLeftPoint (rect fr)))
    ∧ finite (pt_x (botRightPoint (rect fr)))
    ∧ finite (pt_y (botRightPoint (rect fr))).
Proof.
  unfold frame_rect. rewrite <- !int_is_Some.
  destruct (Py.int (pt_x (topLeftPoint (rect fr)))),
    (Py.int (pt_y (topLeftPoint (rect fr)))),
    (Py.int (pt_x (botRightPoint (rect fr)))),
    (Py.int (pt_y (botRightPoint (rect fr)))); simpl;
    split; try (by intros [? ?]); try (by intros (? & ? & ? & ?));
    try (by intros (? & ? & ? & [? ?])); try (by intros (? & ? & [? ?] & ?));
    try (by intros (? & [? ?] & ? & ?)); try (by intros ([? ?] & ? & ? & ?));
    eauto 10.
Qed.

Lemma frame_duration_is_Some fr :
  is_Some (frame_duration fr)
  ↔ finite (Py.mul60 (default (Py.PyFloat 0.066) (duration fr))).
Proof.
  unfold frame_duration. rewrite <- round_is_Some.
  destruct (Py.round _); simpl; split; eauto; by intros [? ?].
Qed.

Lemma two_rounds_is_Some a b :
  is_Some (x ← Py.int_round a; y ← Py.int_round b; Some (x, y))
  ↔ finite a ∧ finite b.
Proof.
  rewrite !int_round_round, <- !round_is_Some.
  destruct (Py.round a), (Py.round b); simpl; split; eauto;
    try (by intros [? ?]); try (by intros [_ [? ?]]); by intros [[? ?] _].
Qed.

Lemma anchors_is_Some t pois :
  is_Some (final_anchor t pois)
  ↔ Forall (λ p, finite (default (Py.PyInt 0) (poi_x p))
                 ∧ finite (default (Py.PyInt 0) (poi_y p)))
      (List.filter (has_tag t) pois).
Proof.
  unfold final_anchor, anchors.
  assert (is_Some (mapM poi_anchor (List.filter (has_tag t) pois))
          ↔ Forall (λ p, finite (default (Py.PyInt 0) (poi_x p))
                         ∧ finite (default (Py.PyInt 0) (poi_y p)))
              (List.filter (has_tag t) pois)) as <-.
  { rewrite mapM_is_Some. apply Forall_iff. intros p. simpl.
    apply two_rounds_is_Some. }
  destruct (mapM poi_anchor _); split; eauto; by intros [? ?].
Qed.

Lemma hitbox_atkBox_is_Some hb :
  is_Some (hitbox_atkBox hb)
  ↔ finite (default (Py.PyInt 0) (width hb))
    ∧ finite (default (Py.PyInt 0) (height hb))
    ∧ finite (default (Py.PyInt 0)
                (off_x (default empty_offset (hb_offset hb))))
    ∧ finite (default (Py.PyInt 0)
                (off_y (default empty_offset (hb_offset hb)))).
Proof.
  unfold hitbox_atkBox. rewrite !int_round_round, <- !round_is_Some.
  destruct (Py.round (default (Py.PyInt 0) (width hb))),
    (Py.round (default (Py.PyInt 0) (height hb))),
    (Py.round (default (Py.PyInt 0)
                 (off_x (default empty_offset (hb_offset hb))))),
    (Py.round (default (Py.PyInt 0)
                 (off_y (default empty_offset (hb_offset hb))))); simpl;
    split; try (by intros [? ?]); try (by intros (? & ? & ? & ?));
    try (by intros (? & ? & ? & [? ?])); try (by intros (? & ? & [? ?] & ?));
    try (by intros (? & [? ?] & ? & ?)); try (by intros ([? ?] & ? & ? & ?));
    eauto 10.
Qed.

Lemma json_atkBox_is_Some fr :
  is_Some (json_atkBox fr)
  ↔ match List.find is_active (default [] (hitboxes fr)) with
    | Some hb => is_Some (hitbox_atkBox hb)
    | None => True
    end.
Proof.
  unfold json_atkBox. rewrite filter_head_find.
  destruct (List.filter is_active (default [] (hitboxes fr))) as [|hb l];
    simpl; [by split; eauto|].
  destruct (hitbox_atkBox hb); simpl; split; eauto; by intros [? ?].
Qed.

Lemma frame_closed_form_readable t d b fr :
  is_Some (frame_closed_form t d b fr) ↔ frame_readable t fr.
Proof.
  unfold frame_readable.
  rewrite <- frame_rect_is_Some, <- frame_duration_is_Some,
    <- (anchors_is_Some t).
  assert (is_Some (frame_offset fr)
          ↔ finite (default (Py.PyInt 0)
                      (off_x (default empty_offset (offset fr))))
            ∧ finite (default (Py.PyInt 0)
                        (off_y (default empty_offset (offset fr))))) as <-
    by apply two_rounds_is_Some.
  assert (is_Some (json_atkBox fr)
          ↔ match List.find is_active (default [] (hitboxes fr)) with
            | Some hb =>
                finite (default (Py.PyInt 0) (width hb))
                ∧ finite (default (Py.PyInt 0) (height hb))
                ∧ finite (default (Py.PyInt 0)
                            (off_x (default empty_offset (hb_offset hb))))
                ∧ finite (default (Py.PyInt 0)
                            (off_y (default empty_offset (hb_offset hb))))
            | None => True
            end) as <-.
  { rewrite json_atkBox_is_Some.
    destruct (List.find is_active (default [] (hitboxes fr))); [|done].
    apply hitbox_atkBox_is_Some. }
  unfold frame_closed_form.
  destruct (frame_rect fr) as [[[[x y] w] h]|]; simpl;
    [|split; [by intros [? ?]|by intros ([? ?] & _)]].
  destruct (frame_duration fr) as [d0|]; simpl;
    [|split; [by intros [? ?]|by intros (_ & [? ?] & _)]].
  destruct (frame_offset fr) as [[vx vy]|]; simpl;
    [|split; [by intros [? ?]|by intros (_ & _ & [? ?] & _)]].
  destruct (final_anchor t (default [] (POIs fr))) as [a|]; simpl;
    [|split; [by intros [? ?]|by intros (_ & _ & _ & [? ?] & _)]].
  destruct (json_atkBox fr) as [ab|]; simpl;
    [|split; [by intros [? ?]|by intros (_ & _ & _ & _ & [? ?])]].
  split; eauto 10.
Qed.

(** X21: on a frame of the schema, the loop body raises exactly when one
    of the numbers it hands to [int] or [round] is an infinity or a NaN: a
    corner coordinate, the duration times 60, an offset, a coordinate of
    any POI with the primary tag (not only the last one), or a number of
    the first active hitbox.  Numbers of other POIs and of other hitboxes
    are never read, and the override tables play no part. *)
Theorem X21_frame_raises_on_what_it_reads c name i fr :
  is_Some (convert_frame_of c name i fr) ↔ frame_readable (primary_tag c) fr.
Proof.
  rewrite convert_frame_of_closed. apply frame_closed_form_readable.
Qed.
